(** * GCD testbench: transaction coordination core

    A shallow embedding of the pyuvm testbench under [pyuvm/gcd]:
    the transaction record, the scoreboard and coverage subscribers,
    the driver and monitor coroutines run against an abstract design
    handle, the stimulus sequences, and the sequencer rendezvous.

    Python integers are [Z]; a signal value read from the design handle
    is the integer it resolves to; a component's logger is the list of
    the logging calls the component has made, newest last. *)

From Stdlib Require Import ZArith List Bool Lia String QArith DecimalString.
From Stdlib Require Import Permutation.
Import ListNotations.
Open Scope Z_scope.

(** ** gcd_transaction.py *)

Record GCDTransaction := mkTxn {
  name : string;
  value1 : Z;
  value2 : Z;
  loadingValues : bool;
  outputGCD : Z;
  outputValid : bool
}.

(** [GCDTransaction.__init__] *)
Definition new_txn (nm : string) : GCDTransaction :=
  {| name := nm; value1 := 0; value2 := 0; loadingValues := false;
     outputGCD := 0; outputValid := false |}.

Definition set_value1 (v : Z) (t : GCDTransaction) : GCDTransaction :=
  {| name := name t; value1 := v; value2 := value2 t;
     loadingValues := loadingValues t;
     outputGCD := outputGCD t; outputValid := outputValid t |}.

Definition set_value2 (v : Z) (t : GCDTransaction) : GCDTransaction :=
  {| name := name t; value1 := value1 t; value2 := v;
     loadingValues := loadingValues t;
     outputGCD := outputGCD t; outputValid := outputValid t |}.

Definition set_loadingValues (b : bool) (t : GCDTransaction) : GCDTransaction :=
  {| name := name t; value1 := value1 t; value2 := value2 t;
     loadingValues := b;
     outputGCD := outputGCD t; outputValid := outputValid t |}.

Definition set_outputGCD (v : Z) (t : GCDTransaction) : GCDTransaction :=
  {| name := name t; value1 := value1 t; value2 := value2 t;
     loadingValues := loadingValues t;
     outputGCD := v; outputValid := outputValid t |}.

Definition set_outputValid (b : bool) (t : GCDTransaction) : GCDTransaction :=
  {| name := name t; value1 := value1 t; value2 := value2 t;
     loadingValues := loadingValues t;
     outputGCD := outputGCD t; outputValid := b |}.

(** [GCDTransaction.__eq__], on two transactions *)
Definition txn_eq (a b : GCDTransaction) : bool :=
  (value1 a =? value1 b) && (value2 a =? value2 b)
  && (outputGCD a =? outputGCD b) && Bool.eqb (outputValid a) (outputValid b).

(** ** Logging

    Every [self.logger.<level>(...)] call appends one record of the
    call.  The record keeps the data the f-string interpolates, not the
    rendered text.  Which calls end up in the log is for the level the
    logger is set to, outside the component: [let_through] below. *)

Inductive level := DEBUG | INFO | WARNING | ERROR.

Inductive message :=
| MsgPass (txn : GCDTransaction) (expected : Z)
| MsgFail (txn : GCDTransaction) (expected : Z)
| MsgRule                               (* the line of 60 [=] *)
| MsgHeading (title : string)
| MsgCount (label : string) (n : Z)
| MsgPassRate (pass_rate : Q)
| MsgNoTransactions
| MsgDriverReceived (txn : GCDTransaction)
| MsgResetting
| MsgResetComplete
| MsgDriverTimeout (txn : GCDTransaction)
| MsgDriverComplete (cycles : Z) (txn : GCDTransaction)
| MsgMonitorObserved (txn : GCDTransaction)
| MsgMonitorTimeout (value1 value2 : Z).

Record log_record := mkLog { lvl : level; msg : message }.

Definition logger := list log_record.

Definition log (l : level) (m : message) (lg : logger) : logger :=
  lg ++ [mkLog l m].

Definition is_level (l : level) (r : log_record) : bool :=
  match l, lvl r with
  | DEBUG, DEBUG | INFO, INFO | WARNING, WARNING | ERROR, ERROR => true
  | _, _ => false
  end.

Definition count_level (l : level) (lg : logger) : nat :=
  List.length (filter (is_level l) lg).

(** The calls that become log records when the logger lets through the
    levels that [keeps] holds of.  The threshold the logger is set to
    (pyuvm's default, or the [CRITICAL] that the tests set) is a
    parameter: [keeps] can be any choice of levels. *)
Definition let_through (keeps : level -> bool) (calls : logger) : logger :=
  filter (fun r => keeps (lvl r)) calls.

(** A call either returns, or raises
    [Exception(f"Scoreboard: {failed_count} transaction(s) failed!")];
    either way it leaves the component in state [a]. *)
Inductive outcome (A : Type) :=
| Returned (a : A)
| Raised (a : A) (failed_count : Z).
Arguments Returned {A} a.
Arguments Raised {A} a failed_count.

(** ** gcd_scoreboard.py *)

Module Scoreboard.

Record GCDScoreboard := mkSb {
  passed : Z;
  failed : Z;
  sb_logger : logger
}.

(** [GCDScoreboard.__init__] *)
Definition init : GCDScoreboard :=
  {| passed := 0; failed := 0; sb_logger := [] |}.

Definition check_transaction (sb : GCDScoreboard) (txn : GCDTransaction)
  : GCDScoreboard :=
  let expected_gcd := Z.gcd (value1 txn) (value2 txn) in
  if (outputGCD txn =? expected_gcd) && outputValid txn then
    {| passed := passed sb + 1; failed := failed sb;
       sb_logger := log DEBUG (MsgPass txn expected_gcd) (sb_logger sb) |}
  else
    {| passed := passed sb; failed := failed sb + 1;
       sb_logger := log ERROR (MsgFail txn expected_gcd) (sb_logger sb) |}.

Definition write (sb : GCDScoreboard) (txn : GCDTransaction) : GCDScoreboard :=
  check_transaction sb txn.

(** The scoreboard after the analysis port delivered [txns] in order. *)
Definition receive_all (sb : GCDScoreboard) (txns : list GCDTransaction)
  : GCDScoreboard :=
  fold_left write txns sb.

Definition with_log (l : level) (m : message) (sb : GCDScoreboard)
  : GCDScoreboard :=
  {| passed := passed sb; failed := failed sb;
     sb_logger := log l m (sb_logger sb) |}.

(** The float [pass_rate] is the rational it is computed as. *)
Definition report_phase (sb : GCDScoreboard) : outcome GCDScoreboard :=
  let total := passed sb + failed sb in
  if total >? 0 then
    let pass_rate := (inject_Z (passed sb) / inject_Z total * 100)%Q in
    let sb := with_log INFO MsgRule sb in
    let sb := with_log INFO (MsgHeading "SCOREBOARD SUMMARY") sb in
    let sb := with_log INFO MsgRule sb in
    let sb := with_log INFO (MsgCount "Total Transactions" total) sb in
    let sb := with_log INFO (MsgCount "Passed" (passed sb)) sb in
    let sb := with_log INFO (MsgCount "Failed" (failed sb)) sb in
    let sb := with_log INFO (MsgPassRate pass_rate) sb in
    let sb := with_log INFO MsgRule sb in
    if failed sb >? 0 then Raised sb (failed sb) else Returned sb
  else
    Returned (with_log WARNING MsgNoTransactions sb).

End Scoreboard.

(** ** gcd_coverage.py *)

Module Coverage.

Record GCDCoverage := mkCov {
  zero_cases : Z;
  one_cases : Z;
  equal_cases : Z;
  coprime_cases : Z;
  max_value_cases : Z;
  power_of_two_cases : Z;
  total_transactions : Z;
  cov_logger : logger
}.

Definition init : GCDCoverage :=
  {| zero_cases := 0; one_cases := 0; equal_cases := 0; coprime_cases := 0;
     max_value_cases := 0; power_of_two_cases := 0; total_transactions := 0;
     cov_logger := [] |}.

Definition inc_total (c : GCDCoverage) : GCDCoverage :=
  mkCov (zero_cases c) (one_cases c) (equal_cases c) (coprime_cases c)
        (max_value_cases c) (power_of_two_cases c) (total_transactions c + 1)
        (cov_logger c).

Definition inc_zero (c : GCDCoverage) : GCDCoverage :=
  mkCov (zero_cases c + 1) (one_cases c) (equal_cases c) (coprime_cases c)
        (max_value_cases c) (power_of_two_cases c) (total_transactions c)
        (cov_logger c).

Definition inc_one (c : GCDCoverage) : GCDCoverage :=
  mkCov (zero_cases c) (one_cases c + 1) (equal_cases c) (coprime_cases c)
        (max_value_cases c) (power_of_two_cases c) (total_transactions c)
        (cov_logger c).

Definition inc_equal (c : GCDCoverage) : GCDCoverage :=
  mkCov (zero_cases c) (one_cases c) (equal_cases c + 1) (coprime_cases c)
        (max_value_cases c) (power_of_two_cases c) (total_transactions c)
        (cov_logger c).

Definition inc_coprime (c : GCDCoverage) : GCDCoverage :=
  mkCov (zero_cases c) (one_cases c) (equal_cases c) (coprime_cases c + 1)
        (max_value_cases c) (power_of_two_cases c) (total_transactions c)
        (cov_logger c).

Definition inc_max_value (c : GCDCoverage) : GCDCoverage :=
  mkCov (zero_cases c) (one_cases c) (equal_cases c) (coprime_cases c)
        (max_value_cases c + 1) (power_of_two_cases c) (total_transactions c)
        (cov_logger c).

Definition inc_power_of_two (c : GCDCoverage) : GCDCoverage :=
  mkCov (zero_cases c) (one_cases c) (equal_cases c) (coprime_cases c)
        (max_value_cases c) (power_of_two_cases c + 1) (total_transactions c)
        (cov_logger c).

(** [GCDCoverage.is_power_of_two]; [&] on Python integers is [Z.land]. *)
Definition is_power_of_two (n : Z) : bool :=
  (n >? 0) && (Z.land n (n - 1) =? 0).

Definition write (c : GCDCoverage) (txn : GCDTransaction) : GCDCoverage :=
  let c := inc_total c in
  let c := if (value1 txn =? 0) || (value2 txn =? 0) then inc_zero c else c in
  let c := if (value1 txn =? 1) || (value2 txn =? 1) then inc_one c else c in
  let c := if value1 txn =? value2 txn then inc_equal c else c in
  let c := if outputGCD txn =? 1 then inc_coprime c else c in
  let c := if (value1 txn =? 65535) || (value2 txn =? 65535)
           then inc_max_value c else c in
  let c := if is_power_of_two (value1 txn) || is_power_of_two (value2 txn)
           then inc_power_of_two c else c in
  c.

Definition with_log (l : level) (m : message) (c : GCDCoverage)
  : GCDCoverage :=
  mkCov (zero_cases c) (one_cases c) (equal_cases c) (coprime_cases c)
        (max_value_cases c) (power_of_two_cases c) (total_transactions c)
        (log l m (cov_logger c)).

Definition report_phase (c : GCDCoverage) : GCDCoverage :=
  let c := with_log INFO MsgRule c in
  let c := with_log INFO (MsgHeading "COVERAGE REPORT") c in
  let c := with_log INFO MsgRule c in
  let c := with_log INFO (MsgCount "Total Transactions" (total_transactions c)) c in
  let c := with_log INFO (MsgCount "Zero cases" (zero_cases c)) c in
  let c := with_log INFO (MsgCount "One cases" (one_cases c)) c in
  let c := with_log INFO (MsgCount "Equal values" (equal_cases c)) c in
  let c := with_log INFO (MsgCount "Coprime (GCD=1)" (coprime_cases c)) c in
  let c := with_log INFO (MsgCount "Max value cases" (max_value_cases c)) c in
  let c := with_log INFO (MsgCount "Power of 2 cases" (power_of_two_cases c)) c in
  with_log INFO MsgRule c.

End Coverage.

(** ** The design handle

    [self.dut] is an opaque object: the bench writes four input signals,
    reads the signals back, and awaits rising edges of the clock.  [W] is
    the state of the simulation as the bench sees it; [rising_edge] is
    [await RisingEdge(self.dut.clock)]. *)

Class DutHandle (W : Type) := {
  rising_edge : W -> W;
  write_reset : Z -> W -> W;
  write_loadingValues : Z -> W -> W;
  write_value1 : Z -> W -> W;
  write_value2 : Z -> W -> W;
  read_loadingValues : W -> Z;
  read_value1 : W -> Z;
  read_value2 : W -> Z;
  read_outputGCD : W -> Z;
  read_outputValid : W -> Z
}.

(** [n] successive rising edges *)
Fixpoint edges {W} `{DutHandle W} (n : nat) (w : W) : W :=
  match n with
  | O => w
  | S k => edges k (rising_edge w)
  end.

(** The bounded polling loop that driver and monitor share:

      while self.dut.io_outputValid.value == v and count < bound:
          await RisingEdge(self.dut.clock)
          count += 1

    [test] is the comparison on the sampled flag.  [fuel] bounds the
    recursion; [Z.to_nat bound] iterations are always enough when the
    counter starts at 0: the loop then ends with its condition false
    (lemma [poll_general] below). *)
Fixpoint poll {W} `{DutHandle W} (test : Z -> bool) (bound : Z)
         (fuel : nat) (w : W) (count : Z) : W * Z :=
  match fuel with
  | O => (w, count)
  | S f =>
      if test (read_outputValid w) && (count <? bound)
      then poll test bound f (rising_edge w) (count + 1)
      else (w, count)
  end.

(** ** gcd_driver.py *)

Module Driver.
Section WithHandle.
Context {W : Type} `{DutHandle W}.

Record GCDDriver := mkDrv {
  dut : W;
  drv_logger : logger
}.

Definition with_dut (f : W -> W) (d : GCDDriver) : GCDDriver :=
  {| dut := f (dut d); drv_logger := drv_logger d |}.

Definition with_log (l : level) (m : message) (d : GCDDriver) : GCDDriver :=
  {| dut := dut d; drv_logger := log l m (drv_logger d) |}.

Definition reset_dut (d : GCDDriver) : GCDDriver :=
  let d := with_log INFO MsgResetting d in
  let d := with_dut (write_reset 1) d in
  let d := with_dut (write_loadingValues 0) d in
  let d := with_dut (write_value1 0) d in
  let d := with_dut (write_value2 0) d in
  let d := with_dut (edges 5) d in
  let d := with_dut (write_reset 0) d in
  let d := with_dut rising_edge d in
  with_log INFO MsgResetComplete d.

Definition max_wait : Z := 10.
Definition max_cycles : Z := 1000.

(** The stimulus part of [drive_transaction]: up to the end of the drain
    loop. *)
Definition load_and_drain (w : W) (txn : GCDTransaction) : W :=
  let w := write_loadingValues 1 w in
  let w := write_value1 (value1 txn) w in
  let w := write_value2 (value2 txn) w in
  let w := rising_edge w in
  let w := write_loadingValues 0 w in
  fst (poll (fun v => v =? 1) max_wait (Z.to_nat max_wait) w 0).

(** The wait loop of [drive_transaction]: the world it ends in and the
    value of [cycles]. *)
Definition wait_phase (w : W) : W * Z :=
  poll (fun v => v =? 0) max_cycles (Z.to_nat max_cycles) w 0.

Definition drive_transaction (d : GCDDriver) (txn : GCDTransaction)
  : GCDDriver * GCDTransaction :=
  let d := with_dut (fun w => load_and_drain w txn) d in
  let '(w, cycles) := wait_phase (dut d) in
  let d := with_dut (fun _ => w) d in
  if cycles >=? max_cycles then
    (with_log ERROR (MsgDriverTimeout txn) d, txn)
  else
    let txn := set_outputGCD (read_outputGCD w) txn in
    let txn := set_outputValid (negb (read_outputValid w =? 0)) txn in
    (with_log INFO (MsgDriverComplete cycles txn) d, txn).

End WithHandle.
Arguments GCDDriver W : clear implicits.
End Driver.

(** ** gcd_monitor.py

    The monitor only reads the handle and awaits edges; its [dut] is the
    signals as they go by at the edges it awaits. *)

Module Monitor.
Section WithHandle.
Context {W : Type} `{DutHandle W}.

Record GCDMonitor := mkMon {
  dut : W;
  mon_logger : logger;
  ap : list GCDTransaction      (* what [self.ap.write] was called with *)
}.

Definition max_cycles : Z := 1000.

(** One turn of the [while True] loop of [run_phase]. *)
Definition run_phase_iteration (m : GCDMonitor) : GCDMonitor :=
  let w := rising_edge (dut m) in
  if read_loadingValues w =? 1 then
    let txn := new_txn "monitored_txn" in
    let txn := set_value1 (read_value1 w) txn in
    let txn := set_value2 (read_value2 w) txn in
    let txn := set_loadingValues true txn in
    let '(w, cycles) :=
      poll (fun v => v =? 0) max_cycles (Z.to_nat max_cycles) w 0 in
    if cycles <? max_cycles then
      let txn := set_outputGCD (read_outputGCD w) txn in
      let txn := set_outputValid (negb (read_outputValid w =? 0)) txn in
      {| dut := w;
         mon_logger := log DEBUG (MsgMonitorObserved txn) (mon_logger m);
         ap := ap m ++ [txn] |}
    else
      {| dut := w;
         mon_logger :=
           log WARNING (MsgMonitorTimeout (value1 txn) (value2 txn))
               (mon_logger m);
         ap := ap m |}
  else
    {| dut := w; mon_logger := mon_logger m; ap := ap m |}.

(** The first [n] turns of the loop. *)
Fixpoint run_phase (n : nat) (m : GCDMonitor) : GCDMonitor :=
  match n with
  | O => m
  | S k => run_phase k (run_phase_iteration m)
  end.

End WithHandle.
Arguments GCDMonitor W : clear implicits.
End Monitor.

(** ** gcd_env.py and the driver's [run_phase]

    [connect_phase] binds the driver's analysis port to the scoreboard
    and then to the coverage collector; [ap.write] calls their [write]
    in that order before it returns. *)

Module Env.
Section WithHandle.
Context {W : Type} `{DutHandle W}.

Record GCDEnv := mkEnv {
  driver : Driver.GCDDriver W;
  scoreboard : Scoreboard.GCDScoreboard;
  coverage : Coverage.GCDCoverage;
  ap : list GCDTransaction;     (* what the driver's port was written with *)
  items_done : Z                (* calls of [seq_item_port.item_done] *)
}.

Definition build (w : W) : GCDEnv :=
  {| driver := Driver.mkDrv w [];
     scoreboard := Scoreboard.init;
     coverage := Coverage.init;
     ap := [];
     items_done := 0 |}.

Definition reset (e : GCDEnv) : GCDEnv :=
  {| driver := Driver.reset_dut (driver e);
     scoreboard := scoreboard e; coverage := coverage e;
     ap := ap e; items_done := items_done e |}.

(** The turn of the [while True] loop of [GCDDriver.run_phase] for the
    item [txn] that [get_next_item] returned, statement by statement. *)
Definition receive (e : GCDEnv) (txn : GCDTransaction) : GCDEnv :=
  {| driver := Driver.with_log INFO (MsgDriverReceived txn) (driver e);
     scoreboard := scoreboard e; coverage := coverage e;
     ap := ap e; items_done := items_done e |}.

Definition drive (e : GCDEnv) (txn : GCDTransaction)
  : GCDEnv * GCDTransaction :=
  let '(d, txn) := Driver.drive_transaction (driver e) txn in
  ({| driver := d;
      scoreboard := scoreboard e; coverage := coverage e;
      ap := ap e; items_done := items_done e |}, txn).

Definition publish (e : GCDEnv) (txn : GCDTransaction) : GCDEnv :=
  {| driver := driver e;
     scoreboard := Scoreboard.write (scoreboard e) txn;
     coverage := Coverage.write (coverage e) txn;
     ap := ap e ++ [txn];
     items_done := items_done e |}.

Definition item_done (e : GCDEnv) : GCDEnv :=
  {| driver := driver e;
     scoreboard := scoreboard e; coverage := coverage e;
     ap := ap e; items_done := items_done e + 1 |}.

Definition process_item (e : GCDEnv) (txn : GCDTransaction) : GCDEnv :=
  let e := receive e txn in
  let '(e, txn) := drive e txn in
  let e := publish e txn in
  item_done e.

(** The driver's [run_phase] over the items the sequencer hands it. *)
Definition run_phase (e : GCDEnv) (items : list GCDTransaction) : GCDEnv :=
  fold_left process_item items (reset e).

(** End of run: the report phase visits the scoreboard, then the
    coverage collector (the order [build_phase] created them in); an
    exception raised by the scoreboard ends the phase there. *)
Definition report_phase (e : GCDEnv) : outcome GCDEnv :=
  match Scoreboard.report_phase (scoreboard e) with
  | Returned sb =>
      Returned {| driver := driver e; scoreboard := sb;
                  coverage := Coverage.report_phase (coverage e);
                  ap := ap e; items_done := items_done e |}
  | Raised sb n =>
      Raised {| driver := driver e; scoreboard := sb;
                coverage := coverage e;
                ap := ap e; items_done := items_done e |} n
  end.

Definition run_test (w : W) (items : list GCDTransaction) : outcome GCDEnv :=
  report_phase (run_phase (build w) items).

End WithHandle.
Arguments GCDEnv W : clear implicits.
End Env.

(** ** gcd_sequences.py and [GCDTransaction.randomize]

    Python's [random] module is a global generator: [G] is its state,
    [random] is [random.random()] and [randint a b] is
    [random.randint(a, b)].  A float is the rational it denotes exactly:
    the one [random.random()] returns, and the literals [0.7] and [0.8],
    which are the doubles nearest 7/10 and 8/10. *)

(** [x < y] on the floats that [x] and [y] stand for *)
Definition Qltb (x y : Q) : bool :=
  if Qlt_le_dec x y then true else false.

(** The double [0.7]: 3152519739159347 / 2^52, a little below 7/10. *)
Definition float_0_7 : Q := 3152519739159347 # 4503599627370496.

(** The double [0.8]: 3602879701896397 / 2^52, a little above 8/10. *)
Definition float_0_8 : Q := 3602879701896397 # 4503599627370496.

Class RandomSource (G : Type) := {
  random : G -> Q * G;
  randint : Z -> Z -> G -> Z * G
}.

(** What the library documents of [randint]: the result lies in the
    closed range. *)
Class RandomSourceOk (G : Type) `{RandomSource G} := {
  randint_range :
    forall a b g, a <= b -> a <= fst (randint a b g) <= b
}.

Module Sequences.

(** [f"{prefix}{i}"] *)
Definition item_name (prefix : string) (i : nat) : string :=
  (prefix ++ DecimalString.NilZero.string_of_uint (Nat.to_uint i))%string.

(** [for i, (v1, v2) in enumerate(cases)]: the loop body shared by the
    directed and the corner-case sequence. *)
Definition literal_item (prefix : string) (i : nat) (c : Z * Z)
  : GCDTransaction :=
  let txn := new_txn (item_name prefix i) in
  let txn := set_value1 (fst c) txn in
  let txn := set_value2 (snd c) txn in
  set_loadingValues true txn.

Fixpoint literal_items (prefix : string) (i : nat) (cases : list (Z * Z))
  : list GCDTransaction :=
  match cases with
  | [] => []
  | c :: rest => literal_item prefix i c :: literal_items prefix (S i) rest
  end.

Definition directed_test_cases : list (Z * Z) :=
  [ (1, 1); (17, 19); (48, 18); (100, 100); (65535, 65535); (256, 1024);
    (15, 25); (54, 24); (1071, 462) ].

Definition corner_cases : list (Z * Z) :=
  [ (32768, 32768); (255, 256); (3, 5); (7, 11); (13, 17) ].

(** The items [DirectedGCDSequence.body] submits, in order. *)
Definition DirectedGCDSequence_body : list GCDTransaction :=
  literal_items "directed_txn_" 0 directed_test_cases.

Definition CornerCaseSequence_body : list GCDTransaction :=
  literal_items "corner_txn_" 0 corner_cases.

Section WithRandom.
Context {G : Type} `{RandomSource G}.

(** [GCDTransaction.randomize] *)
Definition randomize (txn : GCDTransaction) (g : G) : GCDTransaction * G :=
  let '(r, g) := random g in
  let '(txn, g) :=
    if Qltb r float_0_7 then
      let '(a, g) := randint 1 10000 g in
      let txn := set_value1 a txn in
      let '(b, g) := randint 1 10000 g in
      (set_value2 b txn, g)
    else
      let '(r, g) := random g in
      if Qltb r float_0_8 then
        let '(a, g) := randint 1 1000 g in
        let txn := set_value1 a txn in
        let '(b, g) := randint 1 1000 g in
        (set_value2 b txn, g)
      else
        let '(base, g) := randint 1 20000 g in
        let '(m, g) := randint 1 3 g in
        let txn := set_value1 (base * m) txn in
        let '(m, g) := randint 1 3 g in
        (set_value2 (base * m) txn, g) in
  (set_loadingValues true txn, g).

(** [RandomGCDSequence.body], for [i] running over [idx]. *)
Fixpoint random_items (idx : list nat) (g : G) : list GCDTransaction * G :=
  match idx with
  | [] => ([], g)
  | i :: rest =>
      let txn := new_txn (item_name "random_txn_" i) in
      let '(txn, g) := randomize txn g in
      let '(txns, g) := random_items rest g in
      (txn :: txns, g)
  end.

Definition RandomGCDSequence_body (num_txns : Z) (g : G)
  : list GCDTransaction * G :=
  random_items (seq 0 (Z.to_nat num_txns)) g.

(** [BackToBackSequence.body] *)
Fixpoint b2b_items (idx : list nat) (g : G) : list GCDTransaction * G :=
  match idx with
  | [] => ([], g)
  | i :: rest =>
      let txn := new_txn (item_name "b2b_txn_" i) in
      let '(txn, g) :=
        if Z.of_nat i mod 3 =? 0 then
          let '(a, g) := randint 1 100 g in
          let txn := set_value1 a txn in
          let '(b, g) := randint 1 100 g in
          (set_value2 b txn, g)
        else randomize txn g in
      let '(txns, g) := b2b_items rest g in
      (txn :: txns, g)
  end.

Definition BackToBackSequence_body (num_txns : Z) (g : G)
  : list GCDTransaction * G :=
  b2b_items (seq 0 (Z.to_nat num_txns)) g.

End WithRandom.
End Sequences.

(** ** Sequence, sequencer and driver as cooperating tasks

    The sequence body and the driver's [run_phase] are two coroutines
    that meet in the sequencer.  A configuration holds the program point
    of each, the sequencer, the environment the driver acts on, and the
    trace of what happened so far. *)

Module Rendezvous.

(** Modelled from the spec: the sequencer and its [get_next_item] /
    [item_done] / [start_item] / [finish_item] calls come from the pyuvm
    library, which is not among the repository's sources.  Section 4.1:
    a single slot of capacity one with an item-outstanding flag; the
    producer's submit does not return before the consumer has taken the
    item and signalled done. *)
Record Sequencer := mkSeqr {
  slot : option GCDTransaction;
  outstanding : bool
}.

(** Program point of the sequence body: [todo] are the items its loop
    has still to submit. *)
Inductive seq_pc :=
| SeqProduce (todo : list GCDTransaction)  (* top of the [for] loop *)
| SeqFinish (todo : list GCDTransaction).  (* suspended in [finish_item] *)

(** Program point of [GCDDriver.run_phase]. *)
Inductive drv_pc :=
| DrvReset                          (* before [reset_dut] *)
| DrvIdle                           (* top of the [while True] loop *)
| DrvGet                            (* suspended in [get_next_item] *)
| DrvDrive (txn : GCDTransaction)   (* before [drive_transaction] *)
| DrvPublish (txn : GCDTransaction) (* before [self.ap.write] *)
| DrvItemDone.                      (* before [item_done] *)

Inductive event :=
| Submit (txn : GCDTransaction)     (* the sequence hands [txn] over *)
| Pull                              (* the driver calls [get_next_item] *)
| Got (txn : GCDTransaction)        (* [get_next_item] returns [txn] *)
| Publish (txn : GCDTransaction)    (* [self.ap.write(txn)] *)
| Done.                             (* [item_done()] *)

Definition is_driver_event (ev : event) : bool :=
  match ev with Submit _ => false | _ => true end.

Definition is_handoff_event (ev : event) : bool :=
  match ev with Pull => false | _ => true end.

Definition got_of (ev : event) : list GCDTransaction :=
  match ev with Got t => [t] | _ => [] end.

Section WithHandle.
Context {W : Type} `{DutHandle W}.

Record config := mkCfg {
  seqp : seq_pc;
  seqr : Sequencer;
  drvp : drv_pc;
  env : Env.GCDEnv W;
  trace : list event
}.

Definition initial (w : W) (items : list GCDTransaction) : config :=
  {| seqp := SeqProduce items;
     seqr := mkSeqr None false;
     drvp := DrvReset;
     env := Env.build w;
     trace := [] |}.

(** One scheduling step: some task that can run runs to its next
    suspension or statement boundary. *)
Inductive step : config -> config -> Prop :=
| step_submit t todo q dp e tr :
    slot q = None ->
    step (mkCfg (SeqProduce (t :: todo)) q dp e tr)
         (mkCfg (SeqFinish todo) (mkSeqr (Some t) (outstanding q)) dp e
                (tr ++ [Submit t]))
| step_resume todo dp e tr :
    step (mkCfg (SeqFinish todo) (mkSeqr None false) dp e tr)
         (mkCfg (SeqProduce todo) (mkSeqr None false) dp e tr)
| step_reset sp q e tr :
    step (mkCfg sp q DrvReset e tr)
         (mkCfg sp q DrvIdle (Env.reset e) tr)
| step_pull sp q e tr :
    step (mkCfg sp q DrvIdle e tr)
         (mkCfg sp q DrvGet e (tr ++ [Pull]))
| step_get sp t b e tr :
    step (mkCfg sp (mkSeqr (Some t) b) DrvGet e tr)
         (mkCfg sp (mkSeqr None true) (DrvDrive t) (Env.receive e t)
                (tr ++ [Got t]))
| step_drive sp q t e tr :
    step (mkCfg sp q (DrvDrive t) e tr)
         (mkCfg sp q (DrvPublish (snd (Env.drive e t))) (fst (Env.drive e t))
                tr)
| step_publish sp q t e tr :
    step (mkCfg sp q (DrvPublish t) e tr)
         (mkCfg sp q DrvItemDone (Env.publish e t) (tr ++ [Publish t]))
| step_done sp q e tr :
    step (mkCfg sp q DrvItemDone e tr)
         (mkCfg sp (mkSeqr (slot q) false) DrvIdle (Env.item_done e)
                (tr ++ [Done])).

(** Reachability under any schedule. *)
Inductive steps : config -> config -> Prop :=
| steps_refl c : steps c c
| steps_snoc c1 c2 c3 : steps c1 c2 -> step c2 c3 -> steps c1 c3.

(** The events of the driver when it handles [items] one after the
    other, starting in environment [e]. *)
Fixpoint serial_driver (e : Env.GCDEnv W) (items : list GCDTransaction)
  : list event :=
  match items with
  | [] => []
  | t :: rest =>
      [Pull; Got t; Publish (snd (Env.drive (Env.receive e t) t)); Done]
        ++ serial_driver (Env.process_item e t) rest
  end.

(** The same run seen from the sequencer: hand-over, take, publish,
    done. *)
Fixpoint serial_handoff (e : Env.GCDEnv W) (items : list GCDTransaction)
  : list event :=
  match items with
  | [] => []
  | t :: rest =>
      [Submit t; Got t; Publish (snd (Env.drive (Env.receive e t) t)); Done]
        ++ serial_handoff (Env.process_item e t) rest
  end.

End WithHandle.
Arguments config W : clear implicits.

Definition prefix {A} (l1 l2 : list A) : Prop := exists r, l2 = l1 ++ r.

End Rendezvous.

(** ** Design stubs and generator stubs

    Concrete handles to run the bench against. *)

Module Stubs.

Record pins := mkPins {
  p_reset : Z;
  p_loadingValues : Z;
  p_value1 : Z;
  p_value2 : Z
}.

Definition no_pins : pins := mkPins 0 0 0 0.

Definition pin_reset (v : Z) (p : pins) : pins :=
  mkPins v (p_loadingValues p) (p_value1 p) (p_value2 p).
Definition pin_loadingValues (v : Z) (p : pins) : pins :=
  mkPins (p_reset p) v (p_value1 p) (p_value2 p).
Definition pin_value1 (v : Z) (p : pins) : pins :=
  mkPins (p_reset p) (p_loadingValues p) v (p_value2 p).
Definition pin_value2 (v : Z) (p : pins) : pins :=
  mkPins (p_reset p) (p_loadingValues p) (p_value1 p) v.

(** A design that never asserts result-valid; it counts clock edges. *)
Record silent := mkSilent { silent_pins : pins; silent_clock : nat }.

#[global] Instance silent_handle : DutHandle silent := {|
  rising_edge w := mkSilent (silent_pins w) (S (silent_clock w));
  write_reset v w := mkSilent (pin_reset v (silent_pins w)) (silent_clock w);
  write_loadingValues v w :=
    mkSilent (pin_loadingValues v (silent_pins w)) (silent_clock w);
  write_value1 v w := mkSilent (pin_value1 v (silent_pins w)) (silent_clock w);
  write_value2 v w := mkSilent (pin_value2 v (silent_pins w)) (silent_clock w);
  read_loadingValues w := p_loadingValues (silent_pins w);
  read_value1 w := p_value1 (silent_pins w);
  read_value2 w := p_value2 (silent_pins w);
  read_outputGCD _ := 0;
  read_outputValid _ := 0
|}.

(** A subtraction-based GCD unit: two registers, loaded on the strobe,
    the larger reduced by the smaller on every other edge; the result is
    valid when the second register is 0. *)
Record subgcd := mkSub { sub_pins : pins; reg_x : Z; reg_y : Z }.

Definition subgcd_edge (w : subgcd) : subgcd :=
  let p := sub_pins w in
  if p_loadingValues p =? 1 then mkSub p (p_value1 p) (p_value2 p)
  else if reg_x w >? reg_y w then mkSub p (reg_x w - reg_y w) (reg_y w)
  else mkSub p (reg_x w) (reg_y w - reg_x w).

#[global] Instance subgcd_handle : DutHandle subgcd := {|
  rising_edge := subgcd_edge;
  write_reset v w := mkSub (pin_reset v (sub_pins w)) (reg_x w) (reg_y w);
  write_loadingValues v w :=
    mkSub (pin_loadingValues v (sub_pins w)) (reg_x w) (reg_y w);
  write_value1 v w := mkSub (pin_value1 v (sub_pins w)) (reg_x w) (reg_y w);
  write_value2 v w := mkSub (pin_value2 v (sub_pins w)) (reg_x w) (reg_y w);
  read_loadingValues w := p_loadingValues (sub_pins w);
  read_value1 w := p_value1 (sub_pins w);
  read_value2 w := p_value2 (sub_pins w);
  read_outputGCD w := reg_x w;
  read_outputValid w := if reg_y w =? 0 then 1 else 0
|}.

Definition subgcd_start : subgcd := mkSub no_pins 0 0.

(** A design that answers [lat_result] with result-valid high from the
    [lat_delay]-th edge after the load edge on. *)
Record latency := mkLat {
  lat_pins : pins;
  lat_delay : Z;
  lat_result : Z;
  lat_count : Z
}.

Definition latency_edge (w : latency) : latency :=
  if p_loadingValues (lat_pins w) =? 1
  then mkLat (lat_pins w) (lat_delay w) (lat_result w) 0
  else mkLat (lat_pins w) (lat_delay w) (lat_result w) (lat_count w + 1).

#[global] Instance latency_handle : DutHandle latency := {|
  rising_edge := latency_edge;
  write_reset v w :=
    mkLat (pin_reset v (lat_pins w)) (lat_delay w) (lat_result w) (lat_count w);
  write_loadingValues v w :=
    mkLat (pin_loadingValues v (lat_pins w)) (lat_delay w) (lat_result w)
          (lat_count w);
  write_value1 v w :=
    mkLat (pin_value1 v (lat_pins w)) (lat_delay w) (lat_result w) (lat_count w);
  write_value2 v w :=
    mkLat (pin_value2 v (lat_pins w)) (lat_delay w) (lat_result w) (lat_count w);
  read_loadingValues w := p_loadingValues (lat_pins w);
  read_value1 w := p_value1 (lat_pins w);
  read_value2 w := p_value2 (lat_pins w);
  read_outputGCD w := lat_result w;
  read_outputValid w := if lat_count w >=? lat_delay w then 1 else 0
|}.

Definition latency_start (delay result : Z) : latency :=
  mkLat no_pins delay result 0.

(** A recorded waveform played back to a passive observer: the sample
    at index [now] is what the observer reads; writes have no effect. *)
Record sample := mkSample {
  s_loadingValues : Z;
  s_value1 : Z;
  s_value2 : Z;
  s_outputGCD : Z;
  s_outputValid : Z
}.

Record playback := mkPlay { wave : nat -> sample; now : nat }.

#[global] Instance playback_handle : DutHandle playback := {|
  rising_edge w := mkPlay (wave w) (S (now w));
  write_reset _ w := w;
  write_loadingValues _ w := w;
  write_value1 _ w := w;
  write_value2 _ w := w;
  read_loadingValues w := s_loadingValues (wave w (now w));
  read_value1 w := s_value1 (wave w (now w));
  read_value2 w := s_value2 (wave w (now w));
  read_outputGCD w := s_outputGCD (wave w (now w));
  read_outputValid w := s_outputValid (wave w (now w))
|}.

(** A load of (48, 18) sampled at edge 1, the result 6 valid from edge
    [answer_at] on. *)
Definition one_load (answer_at : nat) : playback :=
  mkPlay (fun t =>
            mkSample (if Nat.eqb t 1 then 1 else 0) 48 18 6
                     (if Nat.leb answer_at t then 1 else 0))
         0.

(** A generator that replays a fixed cycle of raw draws: [random()]
    yields the next draw over 1000, [randint a b] maps the next draw
    into [a, b]. *)
Record replay := mkReplay { draws : list Z; pos : nat }.

Definition next_draw (g : replay) : Z * replay :=
  (Z.abs (nth (pos g mod Nat.max 1 (List.length (draws g))) (draws g) 0),
   mkReplay (draws g) (S (pos g))).

#[global] Instance replay_source : RandomSource replay := {|
  random g :=
    let '(d, g) := next_draw g in (inject_Z (d mod 1000) / 1000, g)%Q;
  randint a b g :=
    let '(d, g) := next_draw g in (a + d mod (Z.max 1 (b - a + 1)), g)
|}.

(** Draws that take the random policy to its third tier: 0.912, 0.855,
    then base 42 and multipliers 3 and 1. *)
Definition replay_start : replay := mkReplay [912; 855; 41; 2; 3] 0.

End Stubs.

(** The five operand pairs of the directed-vector check, as the directed
    sequence would build them. *)
Definition five_pairs : list (Z * Z) :=
  [ (48, 18); (17, 19); (100, 100); (1071, 462); (256, 1024) ].

Definition five_items : list GCDTransaction :=
  Sequences.literal_items "directed_txn_" 0 five_pairs.

(** ** gcd_test.py

    A test's [run_phase] raises the objection, starts its sequences on
    the sequencer one after the other and awaits each, then awaits a
    number of further rising edges and drops the objection; the report
    phase follows.  While a sequence runs the driver handles its items;
    once the last one has returned the driver is back in
    [get_next_item].  The 1 ns [Timer] before the first sequence awaits
    no clock edge and is left out. *)

Module Test.
Section WithHandle.
Context {W : Type} `{DutHandle W}.




Section WithRandom.
Context {G : Type} `{RandomSource G}.




End WithRandom.
End WithHandle.
End Test.

(** ** What the simulator keeps of a driven input

    A value written to one of the three stimulus signals is what the
    bench reads back from it, across rising edges and writes to the
    other signals, until that signal is written again. *)

Class DutPinsOk (W : Type) `{DutHandle W} := {
  loadingValues_written :
    forall v w, read_loadingValues (write_loadingValues v w) = v;
  value1_written : forall v w, read_value1 (write_value1 v w) = v;
  value2_written : forall v w, read_value2 (write_value2 v w) = v;
  loadingValues_edge :
    forall w, read_loadingValues (rising_edge w) = read_loadingValues w;
  value1_edge : forall w, read_value1 (rising_edge w) = read_value1 w;
  value2_edge : forall w, read_value2 (rising_edge w) = read_value2 w;
  loadingValues_reset :
    forall v w, read_loadingValues (write_reset v w) = read_loadingValues w;
  loadingValues_value1 :
    forall v w, read_loadingValues (write_value1 v w) = read_loadingValues w;
  loadingValues_value2 :
    forall v w, read_loadingValues (write_value2 v w) = read_loadingValues w;
  value1_reset : forall v w, read_value1 (write_reset v w) = read_value1 w;
  value1_loadingValues :
    forall v w, read_value1 (write_loadingValues v w) = read_value1 w;
  value1_value2 : forall v w, read_value1 (write_value2 v w) = read_value1 w;
  value2_reset : forall v w, read_value2 (write_reset v w) = read_value2 w;
  value2_loadingValues :
    forall v w, read_value2 (write_loadingValues v w) = read_value2 w;
  value2_value1 : forall v w, read_value2 (write_value1 v w) = read_value2 w
}.

(** ** Vocabulary of the statements *)

(** A counter that goes from [old] to [new] counts the condition [P]:
    it moves by one when [P] holds and stays put otherwise. *)
Definition counts (P : Prop) (old new : Z) : Prop :=
  (P -> new = old + 1) /\ (~ P -> new = old).

(** Neither operand of [t] is 0. *)
Definition nonzero_operands (t : GCDTransaction) : Prop :=
  value1 t <> 0 /\ value2 t <> 0.

(** [out] is what the tiered policy makes of the draws that generator
    [g] yields next, for a first draw [r1] and a second draw [r2] on
    either side of two marks.  With [r1] below [lo1] the moderate tier:
    both operands are the next two [randint 1 10000].  With [r1] at
    [hi1] or above and [r2] below [lo2] the small tier: both operands
    are the next two [randint 1 1000].  With [r1] at [hi1] or above and
    [r2] at [hi2] or above a base is drawn by [randint 1 20000] and each
    operand is the base times its own [randint 1 3]. *)
Definition tiered_draw {G : Type} `{RandomSource G}
           (lo1 hi1 lo2 hi2 : Q) (g : G) (out : GCDTransaction) : Prop :=
  let r1 := fst (random g) in
  let g1 := snd (random g) in
  let r2 := fst (random g1) in
  let g2 := snd (random g1) in
  ((r1 < lo1)%Q ->
   let a := randint 1 10000 g1 in
   let b := randint 1 10000 (snd a) in
   value1 out = fst a /\ value2 out = fst b
   /\ 1 <= value1 out <= 10000 /\ 1 <= value2 out <= 10000)
  /\ ((hi1 <= r1)%Q -> (r2 < lo2)%Q ->
      let a := randint 1 1000 g2 in
      let b := randint 1 1000 (snd a) in
      value1 out = fst a /\ value2 out = fst b
      /\ 1 <= value1 out <= 1000 /\ 1 <= value2 out <= 1000)
  /\ ((hi1 <= r1)%Q -> (hi2 <= r2)%Q ->
      let base := randint 1 20000 g2 in
      let m1 := randint 1 3 (snd base) in
      let m2 := randint 1 3 (snd m1) in
      1 <= fst base <= 20000
      /\ (fst m1 = 1 \/ fst m1 = 2 \/ fst m1 = 3)
      /\ (fst m2 = 1 \/ fst m2 = 2 \/ fst m2 = 3)
      /\ value1 out = fst base * fst m1
      /\ value2 out = fst base * fst m2).


(** [t] keeps the operands of [t0]. *)
Definition same_operands (t0 t : GCDTransaction) : Prop :=
  value1 t = value1 t0 /\ value2 t = value2 t0.

(** The state a call leaves the component in. *)
Definition outcome_state {A : Type} (o : outcome A) : A :=
  match o with
  | Returned a => a
  | Raised a _ => a
  end.

Definition raised {A : Type} (o : outcome A) : bool :=
  match o with
  | Returned _ => false
  | Raised _ _ => true
  end.


(** Two scoreboards with the same counters; their loggers may differ. *)
Definition same_verdicts (a b : Scoreboard.GCDScoreboard) : Prop :=
  Scoreboard.passed a = Scoreboard.passed b
  /\ Scoreboard.failed a = Scoreboard.failed b.

(** Two coverage collectors with the same seven counters. *)
Definition same_bins (a b : Coverage.GCDCoverage) : Prop :=
  Coverage.total_transactions a = Coverage.total_transactions b
  /\ Coverage.zero_cases a = Coverage.zero_cases b
  /\ Coverage.one_cases a = Coverage.one_cases b
  /\ Coverage.equal_cases a = Coverage.equal_cases b
  /\ Coverage.coprime_cases a = Coverage.coprime_cases b
  /\ Coverage.max_value_cases a = Coverage.max_value_cases b
  /\ Coverage.power_of_two_cases a = Coverage.power_of_two_cases b.

(** Every bin lies between 0 and the total. *)
Definition bins_within_total (c : Coverage.GCDCoverage) : Prop :=
  0 <= Coverage.zero_cases c <= Coverage.total_transactions c
  /\ 0 <= Coverage.one_cases c <= Coverage.total_transactions c
  /\ 0 <= Coverage.equal_cases c <= Coverage.total_transactions c
  /\ 0 <= Coverage.coprime_cases c <= Coverage.total_transactions c
  /\ 0 <= Coverage.max_value_cases c <= Coverage.total_transactions c
  /\ 0 <= Coverage.power_of_two_cases c <= Coverage.total_transactions c.

(** Both operands of [t] fit the 16-bit input fields and are not 0. *)
Definition fits_16_bits (t : GCDTransaction) : Prop :=
  1 <= value1 t <= 65535 /\ 1 <= value2 t <= 65535.

(** [t] has the outputs of a freshly constructed transaction. *)
Definition fresh_outputs (t : GCDTransaction) : Prop :=
  outputGCD t = 0 /\ outputValid t = false.

(** *** Invariant of the rendezvous

    In every reachable configuration a prefix [fin] of the items has
    been handled completely, and the two tasks are in one of three
    situations: nothing on offer, an item in the slot, or an item with
    the driver. *)

Section RendezvousInvariant.
Context {W : Type} `{DutHandle W}.
Import Rendezvous.

(** The driver is between items: its program point, the environment,
    and its events since the last [Done]. *)
Inductive idle_driver (w : W) (fin : list GCDTransaction)
  : drv_pc -> Env.GCDEnv W -> list event -> Prop :=
| idle_reset :
    fin = [] -> idle_driver w fin DrvReset (Env.build w) []
| idle_top :
    idle_driver w fin DrvIdle (Env.run_phase (Env.build w) fin) []
| idle_get :
    idle_driver w fin DrvGet (Env.run_phase (Env.build w) fin) [Pull].

(** The driver holds item [t]: its program point, the environment, and
    the events since it was handed [t]. *)
Inductive busy_driver (w : W) (fin : list GCDTransaction) (t : GCDTransaction)
  : drv_pc -> Env.GCDEnv W -> list event -> Prop :=
| busy_drive :
    busy_driver w fin t (DrvDrive t)
      (Env.receive (Env.run_phase (Env.build w) fin) t) [Got t]
| busy_publish :
    busy_driver w fin t
      (DrvPublish
         (snd (Env.drive (Env.receive (Env.run_phase (Env.build w) fin) t) t)))
      (fst (Env.drive (Env.receive (Env.run_phase (Env.build w) fin) t) t))
      [Got t]
| busy_done :
    busy_driver w fin t DrvItemDone
      (Env.publish
         (fst (Env.drive (Env.receive (Env.run_phase (Env.build w) fin) t) t))
         (snd (Env.drive (Env.receive (Env.run_phase (Env.build w) fin) t) t)))
      [Got t;
       Publish
         (snd (Env.drive (Env.receive (Env.run_phase (Env.build w) fin) t) t))].

Inductive inv (w : W) (items : list GCDTransaction) : config W -> Prop :=
| inv_idle fin todo sp dp e dtr tr :
    items = fin ++ todo ->
    sp = SeqProduce todo \/ sp = SeqFinish todo ->
    idle_driver w fin dp e dtr ->
    filter is_handoff_event tr
    = serial_handoff (Env.reset (Env.build w)) fin ->
    filter is_driver_event tr
    = serial_driver (Env.reset (Env.build w)) fin ++ dtr ->
    inv w items (mkCfg sp (mkSeqr None false) dp e tr)
| inv_offered fin t todo dp e dtr tr :
    items = fin ++ t :: todo ->
    idle_driver w fin dp e dtr ->
    filter is_handoff_event tr
    = serial_handoff (Env.reset (Env.build w)) fin ++ [Submit t] ->
    filter is_driver_event tr
    = serial_driver (Env.reset (Env.build w)) fin ++ dtr ->
    inv w items (mkCfg (SeqFinish todo) (mkSeqr (Some t) false) dp e tr)
| inv_busy fin t todo dp e evs tr :
    items = fin ++ t :: todo ->
    busy_driver w fin t dp e evs ->
    filter is_handoff_event tr
    = serial_handoff (Env.reset (Env.build w)) fin ++ Submit t :: evs ->
    filter is_driver_event tr
    = serial_driver (Env.reset (Env.build w)) fin ++ Pull :: evs ->
    inv w items (mkCfg (SeqFinish todo) (mkSeqr None true) dp e tr).

End RendezvousInvariant.

(** * Properties *)

(** ** The polling loop *)

Section PollFacts.
Context {W : Type} `{DutHandle W}.

Lemma edges_succ (n : nat) (w : W) :
  edges (S n) w = rising_edge (edges n w).
Proof.
  revert w; induction n as [|n IH]; intro w; [reflexivity|].
  change (edges (S (S n)) w) with (edges (S n) (rising_edge w)).
  now rewrite IH.
Qed.

Lemma edges_add (n m : nat) (w : W) :
  edges (n + m) w = edges m (edges n w).
Proof.
  revert w; induction n as [|n IH]; intro w; [reflexivity|].
  simpl. apply IH.
Qed.

(** The loop stops after some [n] edges: the test held before each of
    them, the counter was below the bound, and on exit the loop
    condition is false.  The fuel never cuts the loop short. *)
Lemma poll_general (test : Z -> bool) (bound : Z) :
  forall (fuel : nat) (w : W) (c : Z),
    bound - c <= Z.of_nat fuel ->
    exists n : nat,
      poll test bound fuel w c = (edges n w, c + Z.of_nat n)
      /\ (forall j, (j < n)%nat -> test (read_outputValid (edges j w)) = true)
      /\ (forall j, (j < n)%nat -> c + Z.of_nat j < bound)
      /\ test (read_outputValid (edges n w)) && (c + Z.of_nat n <? bound)
         = false.
Proof.
  induction fuel as [|fuel IH]; intros w c Hfuel.
  - exists 0%nat. simpl. rewrite Z.add_0_r.
    split; [reflexivity|]. split; [intros; lia|]. split; [intros; lia|].
    replace (c <? bound) with false; [apply andb_false_r|].
    symmetry. apply Z.ltb_ge. lia.
  - simpl poll.
    destruct (test (read_outputValid w) && (c <? bound)) eqn:Hcond.
    + apply andb_true_iff in Hcond. destruct Hcond as [Ht Hc].
      apply Z.ltb_lt in Hc.
      destruct (IH (rising_edge w) (c + 1)) as (n & Hp & Hpre & Hlt & Hexit);
        [lia|].
      exists (S n). split; [|split; [|split]].
      * rewrite Hp. simpl edges. f_equal. lia.
      * intros [|j] Hj; [exact Ht|]. apply (Hpre j). lia.
      * intros [|j] Hj; [lia|]. specialize (Hlt j). lia.
      * simpl edges. replace (c + Z.of_nat (S n)) with (c + 1 + Z.of_nat n)
          by lia. exact Hexit.
    + exists 0%nat. simpl. rewrite Z.add_0_r.
      split; [reflexivity|]. split; [intros; lia|]. split; [intros; lia|].
      exact Hcond.
Qed.

Lemma poll_from_zero (test : Z -> bool) (bound : Z) (w : W) :
  0 <= bound ->
  exists n : nat,
    poll test bound (Z.to_nat bound) w 0 = (edges n w, Z.of_nat n)
    /\ Z.of_nat n <= bound
    /\ (forall j, (j < n)%nat -> test (read_outputValid (edges j w)) = true)
    /\ (Z.of_nat n < bound -> test (read_outputValid (edges n w)) = false).
Proof.
  intro Hb.
  destruct (poll_general test bound (Z.to_nat bound) w 0)
    as (n & Hp & Hpre & Hlt & Hexit); [lia|].
  exists n. simpl in Hp, Hexit. repeat split; auto.
  - destruct n as [|n]; [lia|]. specialize (Hlt n). lia.
  - intro Hn. apply andb_false_iff in Hexit. destruct Hexit as [E|E]; auto.
    apply Z.ltb_ge in E. lia.
Qed.

(** When the test holds at every one of the first [bound] samples the
    loop runs into the bound. *)
Lemma poll_exhausts (test : Z -> bool) (bound : nat) (w : W) :
  (forall j, (j < bound)%nat -> test (read_outputValid (edges j w)) = true) ->
  poll test (Z.of_nat bound) bound w 0 = (edges bound w, Z.of_nat bound).
Proof.
  intro Hall.
  destruct (poll_from_zero test (Z.of_nat bound) w) as (n & Hp & Hle & _ & Hex);
    [lia|].
  rewrite Nat2Z.id in Hp.
  destruct (Nat.eq_dec n bound) as [->|Hne]; [exact Hp|].
  assert (Hn : (n < bound)%nat) by lia.
  rewrite Hall in Hex by exact Hn.
  assert (true = false) by (apply Hex; lia). discriminate.
Qed.

(** When the test first fails at sample [n], short of the bound, the loop
    stops there. *)
Lemma poll_stops_at (test : Z -> bool) (bound : Z) (n : nat) (w : W) :
  Z.of_nat n < bound ->
  (forall j, (j < n)%nat -> test (read_outputValid (edges j w)) = true) ->
  test (read_outputValid (edges n w)) = false ->
  poll test bound (Z.to_nat bound) w 0 = (edges n w, Z.of_nat n).
Proof.
  intros Hn Hpre Hstop.
  destruct (poll_from_zero test bound w) as (k & Hp & Hle & Hk & Hex); [lia|].
  rewrite Hp.
  destruct (Nat.lt_trichotomy k n) as [Hlt|[->|Hgt]].
  - rewrite Hpre in Hex by exact Hlt.
    assert (true = false) by (apply Hex; lia). discriminate.
  - reflexivity.
  - rewrite Hk in Hstop by exact Hgt. discriminate.
Qed.

End PollFacts.

(** ** Scoreboard *)

Section ScoreboardFacts.
Import Scoreboard.

Lemma check_transaction_pass (sb : GCDScoreboard) (txn : GCDTransaction) :
  outputGCD txn = Z.gcd (value1 txn) (value2 txn) ->
  outputValid txn = true ->
  passed (check_transaction sb txn) = passed sb + 1
  /\ failed (check_transaction sb txn) = failed sb.
Proof.
  intros Hg Hv. unfold check_transaction.
  rewrite Hv, (proj2 (Z.eqb_eq _ _) Hg). simpl. split; reflexivity.
Qed.

Lemma check_transaction_fail (sb : GCDScoreboard) (txn : GCDTransaction) :
  ~ (outputGCD txn = Z.gcd (value1 txn) (value2 txn)
     /\ outputValid txn = true) ->
  failed (check_transaction sb txn) = failed sb + 1
  /\ passed (check_transaction sb txn) = passed sb.
Proof.
  intro Hn. unfold check_transaction.
  destruct ((outputGCD txn =? Z.gcd (value1 txn) (value2 txn))
            && outputValid txn) eqn:E.
  - exfalso. apply Hn. apply andb_true_iff in E. destruct E as [E1 E2].
    split; [now apply Z.eqb_eq | exact E2].
  - simpl. split; reflexivity.
Qed.

Lemma check_transaction_total (sb : GCDScoreboard) (txn : GCDTransaction) :
  passed (check_transaction sb txn) + failed (check_transaction sb txn)
  = passed sb + failed sb + 1.
Proof.
  unfold check_transaction.
  destruct (_ && _); simpl; lia.
Qed.

Lemma check_transaction_monotone (sb : GCDScoreboard) (txn : GCDTransaction) :
  passed sb <= passed (check_transaction sb txn)
  /\ failed sb <= failed (check_transaction sb txn).
Proof.
  unfold check_transaction. destruct (_ && _); simpl; lia.
Qed.

Lemma receive_all_app (sb : GCDScoreboard) (l1 l2 : list GCDTransaction) :
  receive_all sb (l1 ++ l2) = receive_all (receive_all sb l1) l2.
Proof. unfold receive_all. apply fold_left_app. Qed.

Lemma receive_all_total (txns : list GCDTransaction) :
  forall sb,
    passed (receive_all sb txns) + failed (receive_all sb txns)
    = passed sb + failed sb + Z.of_nat (List.length txns).
Proof.
  induction txns as [|t txns IH]; intro sb.
  - simpl. lia.
  - change (receive_all sb (t :: txns))
      with (receive_all (check_transaction sb t) txns).
    rewrite IH, check_transaction_total. simpl List.length. lia.
Qed.

Lemma receive_all_nonneg (txns : list GCDTransaction) :
  forall sb,
    0 <= passed sb -> 0 <= failed sb ->
    0 <= passed (receive_all sb txns) /\ 0 <= failed (receive_all sb txns).
Proof.
  induction txns as [|t txns IH]; intros sb Hp Hf.
  - simpl. split; assumption.
  - change (receive_all sb (t :: txns))
      with (receive_all (check_transaction sb t) txns).
    destruct (check_transaction_monotone sb t). apply IH; lia.
Qed.

(** C1. For every transaction the scoreboard receives, with [expected]
    the reference gcd of its two operands: when the captured output
    equals [expected] and the valid flag is set, [passed] goes up by
    exactly one and [failed] stays; otherwise [failed] goes up by exactly
    one and [passed] stays.  Over a whole run [passed + failed] is the
    number of transactions received. *)
Theorem scoreboard_counts_each_transaction :
  (forall sb txn,
      let expected := Z.gcd (value1 txn) (value2 txn) in
      (outputGCD txn = expected /\ outputValid txn = true ->
       passed (write sb txn) = passed sb + 1
       /\ failed (write sb txn) = failed sb)
      /\ (~ (outputGCD txn = expected /\ outputValid txn = true) ->
          failed (write sb txn) = failed sb + 1
          /\ passed (write sb txn) = passed sb))
  /\ (forall txns,
         passed (receive_all init txns) + failed (receive_all init txns)
         = Z.of_nat (List.length txns)).
Proof.
  split.
  - intros sb txn expected. unfold write. split.
    + intros [Hg Hv]. now apply check_transaction_pass.
    + apply check_transaction_fail.
  - intro txns. rewrite receive_all_total. reflexivity.
Qed.

Lemma scoreboard_counts_each_transaction_witness :
  (passed (write init (mkTxn "t" 48 18 true 6 true)) = 1
   /\ failed (write init (mkTxn "t" 48 18 true 6 true)) = 0)
  /\ (failed (write init (mkTxn "t" 48 18 true 6 false)) = 1
      /\ passed (write init (mkTxn "t" 48 18 true 6 false)) = 0).
Proof.
  destruct scoreboard_counts_each_transaction as [Hone _].
  split.
  - apply (proj1 (Hone init (mkTxn "t" 48 18 true 6 true))).
    split; reflexivity.
  - apply (proj2 (Hone init (mkTxn "t" 48 18 true 6 false))).
    intros [_ Hv]. discriminate Hv.
Defined.

(** [report_phase] on a scoreboard whose counters are not negative. *)
Lemma report_phase_raises (sb : GCDScoreboard) :
  0 <= passed sb -> 0 < failed sb ->
  exists sb', report_phase sb = Raised sb' (failed sb)
              /\ passed sb' = passed sb /\ failed sb' = failed sb.
Proof.
  intros Hp Hf. unfold report_phase.
  replace (passed sb + failed sb >? 0) with true
    by (symmetry; apply Z.gtb_lt; lia).
  cbn [with_log failed passed].
  replace (failed sb >? 0) with true by (symmetry; apply Z.gtb_lt; lia).
  eexists. repeat split.
Qed.

Lemma report_phase_returns (sb : GCDScoreboard) :
  failed sb <= 0 ->
  exists sb', report_phase sb = Returned sb'
              /\ passed sb' = passed sb /\ failed sb' = failed sb.
Proof.
  intro Hf. unfold report_phase. cbn [with_log failed passed].
  replace (failed sb >? 0) with false
    by (symmetry; rewrite Z.gtb_ltb; apply Z.ltb_ge; lia).
  destruct (passed sb + failed sb >? 0); eexists; repeat split.
Qed.

End ScoreboardFacts.

(** ** Driver and environment *)

Section DriverFacts.
Context {W : Type} `{DutHandle W}.

(** [drive_transaction] either times out and hands the transaction back
    untouched, or captures the two outputs at the world the wait loop
    stopped in. *)
Lemma drive_transaction_cases (d : Driver.GCDDriver W) (txn : GCDTransaction) :
  let w1 := Driver.load_and_drain (Driver.dut d) txn in
  let w := fst (Driver.wait_phase w1) in
  let cycles := snd (Driver.wait_phase w1) in
  (Driver.max_cycles <= cycles
   /\ Driver.drive_transaction d txn
      = (Driver.mkDrv w (log ERROR (MsgDriverTimeout txn) (Driver.drv_logger d)),
         txn))
  \/ (cycles < Driver.max_cycles
      /\ let txn' :=
           set_outputValid (negb (read_outputValid w =? 0))
             (set_outputGCD (read_outputGCD w) txn) in
         Driver.drive_transaction d txn
         = (Driver.mkDrv w (log INFO (MsgDriverComplete cycles txn')
                                (Driver.drv_logger d)),
            txn')).
Proof.
  intros w1 w cycles. subst w cycles w1.
  unfold Driver.drive_transaction, Driver.with_dut, Driver.with_log.
  cbn [Driver.dut Driver.drv_logger].
  destruct (Driver.wait_phase (Driver.load_and_drain (Driver.dut d) txn))
    as [w cycles] eqn:E.
  cbn [fst snd Driver.dut Driver.drv_logger].
  destruct (cycles >=? Driver.max_cycles) eqn:Hc.
  - left. split; [apply Z.geb_le in Hc; lia|]. reflexivity.
  - right. split; [|reflexivity].
    rewrite Z.geb_leb in Hc. apply Z.leb_gt in Hc. exact Hc.
Qed.

Lemma drive_transaction_same_operands
      (d : Driver.GCDDriver W) (txn : GCDTransaction) :
  same_operands txn (snd (Driver.drive_transaction d txn)).
Proof.
  destruct (drive_transaction_cases d txn) as [[_ E]|[_ E]];
    cbv zeta in E; rewrite E; split; reflexivity.
Qed.

Lemma process_item_fields (e : Env.GCDEnv W) (txn : GCDTransaction) :
  let out := snd (Env.drive (Env.receive e txn) txn) in
  Env.ap (Env.process_item e txn) = Env.ap e ++ [out]
  /\ Env.scoreboard (Env.process_item e txn)
     = Scoreboard.write (Env.scoreboard e) out
  /\ Env.coverage (Env.process_item e txn)
     = Coverage.write (Env.coverage e) out
  /\ Env.items_done (Env.process_item e txn) = Env.items_done e + 1
  /\ same_operands txn out.
Proof.
  intro out. subst out. unfold Env.process_item, Env.drive.
  pose proof (drive_transaction_same_operands
                (Env.driver (Env.receive e txn)) txn) as Hs.
  destruct (Driver.drive_transaction (Env.driver (Env.receive e txn)) txn)
    as [d t'].
  cbn. repeat split; apply Hs.
Qed.

(** The loop over a list of items: every item is driven, published to
    both subscribers and acknowledged, in order. *)
Lemma process_items_fields (items : list GCDTransaction) :
  forall e : Env.GCDEnv W,
    let e' := fold_left Env.process_item items e in
    exists out,
      Env.ap e' = Env.ap e ++ out
      /\ Forall2 same_operands items out
      /\ Env.scoreboard e' = Scoreboard.receive_all (Env.scoreboard e) out
      /\ Env.coverage e' = fold_left Coverage.write out (Env.coverage e)
      /\ Env.items_done e' = Env.items_done e + Z.of_nat (List.length items).
Proof.
  induction items as [|t items IH]; intro e.
  - exists []. cbn. rewrite app_nil_r, Z.add_0_r. repeat split. constructor.
  - cbn zeta. cbn [fold_left].
    destruct (process_item_fields e t) as (Ha & Hs & Hc & Hd & Ho).
    destruct (IH (Env.process_item e t)) as (out & Ha' & Ho' & Hs' & Hc' & Hd').
    cbn zeta in Ha', Hs', Hc', Hd'.
    exists (snd (Env.drive (Env.receive e t) t) :: out).
    rewrite Ha', Hs', Hc', Hd', Ha, Hs, Hc, Hd.
    split; [now rewrite <- app_assoc|].
    split; [constructor; assumption|].
    split; [reflexivity|]. split; [reflexivity|].
    cbn [List.length]. lia.
Qed.

Lemma run_phase_fields (w : W) (items : list GCDTransaction) :
  let e := Env.run_phase (Env.build w) items in
  Forall2 same_operands items (Env.ap e)
  /\ Env.scoreboard e = Scoreboard.receive_all Scoreboard.init (Env.ap e)
  /\ Env.coverage e = fold_left Coverage.write (Env.ap e) Coverage.init
  /\ Env.items_done e = Z.of_nat (List.length items).
Proof.
  intro e. subst e. unfold Env.run_phase.
  destruct (process_items_fields items (Env.reset (Env.build w)))
    as (out & Ha & Ho & Hs & Hc & Hd).
  cbn zeta in Ha, Hs, Hc, Hd. cbn in Ha.
  rewrite Ha, Hs, Hc, Hd. cbn. repeat split; assumption.
Qed.

(** C4. At the end of a run the outcome is a hard failure exactly when
    the scoreboard's [failed] counter is above 0.  Nothing before that
    escalates: whatever the design answers, the driver loop handles every
    item it is given (each is published, checked and acknowledged), and
    the only raise is the one of the end-of-run report. *)
Theorem only_end_of_run_check_escalates :
  forall (w : W) (items : list GCDTransaction),
    let e := Env.run_phase (Env.build w) items in
    Env.items_done e = Z.of_nat (List.length items)
    /\ List.length (Env.ap e) = List.length items
    /\ Scoreboard.passed (Env.scoreboard e) + Scoreboard.failed (Env.scoreboard e)
       = Z.of_nat (List.length items)
    /\ (Scoreboard.failed (Env.scoreboard e) > 0 ->
        exists e',
          Env.run_test w items
          = Raised e' (Scoreboard.failed (Env.scoreboard e)))
    /\ (Scoreboard.failed (Env.scoreboard e) <= 0 ->
        exists e', Env.run_test w items = Returned e').
Proof.
  intros w items e.
  destruct (run_phase_fields w items) as (Ho & Hs & _ & Hd).
  fold e in Ho, Hs, Hd.
  assert (Hlen : List.length (Env.ap e) = List.length items)
    by (symmetry; eapply Forall2_length; exact Ho).
  assert (Hnn : 0 <= Scoreboard.passed (Env.scoreboard e)
                /\ 0 <= Scoreboard.failed (Env.scoreboard e)).
  { rewrite Hs. apply receive_all_nonneg; cbn; lia. }
  split; [exact Hd|]. split; [exact Hlen|].
  split.
  { rewrite Hs, receive_all_total. cbn. now rewrite Hlen. }
  split.
  - intro Hf. unfold Env.run_test. fold e. unfold Env.report_phase.
    destruct (report_phase_raises (Env.scoreboard e)) as (sb' & E & _);
      [lia|lia|].
    rewrite E. eexists. reflexivity.
  - intro Hf. unfold Env.run_test. fold e. unfold Env.report_phase.
    destruct (report_phase_returns (Env.scoreboard e) Hf) as (sb' & E & _).
    rewrite E. eexists. reflexivity.
Qed.

End DriverFacts.

Lemma forallb_seq_lt (f : nat -> bool) (n : nat) :
  forallb f (seq 0 n) = true -> forall j, (j < n)%nat -> f j = true.
Proof.
  intros Hall j Hj. rewrite forallb_forall in Hall.
  apply Hall, in_seq. lia.
Qed.

Lemma only_end_of_run_check_escalates_witness :
  Scoreboard.failed
    (Env.scoreboard
       (Env.run_phase (Env.build (Stubs.mkSilent Stubs.no_pins 0)) five_items))
  > 0
  /\ exists e',
      Env.run_test (Stubs.mkSilent Stubs.no_pins 0) five_items = Raised e' 5.
Proof.
  assert (Hf : Scoreboard.failed
                 (Env.scoreboard
                    (Env.run_phase (Env.build (Stubs.mkSilent Stubs.no_pins 0))
                                   five_items)) = 5)
    by (vm_compute; reflexivity).
  split; [rewrite Hf; reflexivity|].
  destruct (only_end_of_run_check_escalates
              (Stubs.mkSilent Stubs.no_pins 0) five_items)
    as (_ & _ & _ & Hraise & _).
  rewrite <- Hf. apply Hraise. rewrite Hf. reflexivity.
Defined.

(** ** Timeout of the driver's wait phase *)

Section DriverTimeout.
Context {W : Type} `{DutHandle W}.

Lemma wait_phase_exhausts (w : W) :
  (forall j, (j < 1000)%nat -> read_outputValid (edges j w) = 0) ->
  Driver.wait_phase w = (edges 1000 w, 1000).
Proof.
  intro Hlow. unfold Driver.wait_phase.
  change Driver.max_cycles with (Z.of_nat 1000).
  rewrite Nat2Z.id.
  apply (poll_exhausts (fun v => v =? 0) 1000 w).
  intros j Hj. rewrite (Hlow j Hj). reflexivity.
Qed.

Lemma wait_phase_succeeds (w : W) (n : nat) :
  (n < 1000)%nat ->
  (forall j, (j < n)%nat -> read_outputValid (edges j w) = 0) ->
  read_outputValid (edges n w) <> 0 ->
  Driver.wait_phase w = (edges n w, Z.of_nat n).
Proof.
  intros Hn Hlow Hhigh. unfold Driver.wait_phase.
  apply poll_stops_at.
  - unfold Driver.max_cycles. lia.
  - intros j Hj. rewrite (Hlow j Hj). reflexivity.
  - now apply Z.eqb_neq.
Qed.

(** The two ways the wait phase can end. *)
Lemma wait_phase_cases (w : W) :
  (exists n : nat,
      (n < 1000)%nat
      /\ (forall j, (j < n)%nat -> read_outputValid (edges j w) = 0)
      /\ read_outputValid (edges n w) <> 0
      /\ Driver.wait_phase w = (edges n w, Z.of_nat n))
  \/ ((forall j, (j < 1000)%nat -> read_outputValid (edges j w) = 0)
      /\ Driver.wait_phase w = (edges 1000 w, 1000)).
Proof.
  unfold Driver.wait_phase.
  destruct (poll_from_zero (fun v => v =? 0) Driver.max_cycles w)
    as (n & Hp & Hle & Hpre & Hex); [unfold Driver.max_cycles; lia|].
  unfold Driver.max_cycles in *.
  assert (Hlow : forall j, (j < n)%nat -> read_outputValid (edges j w) = 0)
    by (intros j Hj; apply Z.eqb_eq, Hpre, Hj).
  destruct (Z.eq_dec (Z.of_nat n) 1000) as [E|E].
  - right. assert (n = 1000%nat) by lia. subst n.
    split; [exact Hlow|]. rewrite Hp. reflexivity.
  - left. exists n. split; [lia|]. split; [exact Hlow|].
    split; [|exact Hp]. apply Z.eqb_neq, Hex. lia.
Qed.

(** C9. When result-valid is low at each of the first 1000 samples of the
    wait phase and comes up only on the edge at which [cycles] becomes
    1000, the driver reports a timeout and captures nothing, although the
    flag is high when it looks.  In general the capture branch is taken
    exactly when the flag is seen high at a sample [n] strictly below the
    bound. *)
Theorem valid_on_the_bound_edge_is_a_timeout :
  forall (d : Driver.GCDDriver W) (txn : GCDTransaction),
    let w1 := Driver.load_and_drain (Driver.dut d) txn in
    ((forall j, (j < 1000)%nat -> read_outputValid (edges j w1) = 0) ->
     read_outputValid (edges 1000 w1) = 1 ->
     Driver.drive_transaction d txn
     = (Driver.mkDrv (edges 1000 w1)
          (log ERROR (MsgDriverTimeout txn) (Driver.drv_logger d)),
        txn))
    /\ ((exists n : nat,
            (n < 1000)%nat
            /\ (forall j, (j < n)%nat -> read_outputValid (edges j w1) = 0)
            /\ read_outputValid (edges n w1) <> 0
            /\ Driver.drive_transaction d txn
               = (Driver.mkDrv (edges n w1)
                    (log INFO
                       (MsgDriverComplete (Z.of_nat n)
                          (set_outputValid true
                             (set_outputGCD (read_outputGCD (edges n w1)) txn)))
                       (Driver.drv_logger d)),
                  set_outputValid true
                    (set_outputGCD (read_outputGCD (edges n w1)) txn)))
        \/ ((forall j, (j < 1000)%nat -> read_outputValid (edges j w1) = 0)
            /\ Driver.drive_transaction d txn
               = (Driver.mkDrv (edges 1000 w1)
                    (log ERROR (MsgDriverTimeout txn) (Driver.drv_logger d)),
                  txn))).
Proof.
  intros d txn w1.
  assert (Htimeout :
            (forall j, (j < 1000)%nat -> read_outputValid (edges j w1) = 0) ->
            Driver.drive_transaction d txn
            = (Driver.mkDrv (edges 1000 w1)
                 (log ERROR (MsgDriverTimeout txn) (Driver.drv_logger d)),
               txn)).
  { intro Hlow.
    destruct (drive_transaction_cases d txn) as [[_ E]|[Hc _]];
      fold w1 in E || fold w1 in Hc.
    - rewrite E, (wait_phase_exhausts w1 Hlow). reflexivity.
    - rewrite (wait_phase_exhausts w1 Hlow) in Hc. cbn in Hc.
      unfold Driver.max_cycles in Hc. lia. }
  split; [intros Hlow _; exact (Htimeout Hlow)|].
  destruct (wait_phase_cases w1) as [(n & Hn & Hlow & Hhigh & E)|[Hlow _]].
  - left. exists n. split; [exact Hn|]. split; [exact Hlow|].
    split; [exact Hhigh|].
    destruct (drive_transaction_cases d txn) as [[Hc _]|[_ E']];
      fold w1 in Hc || fold w1 in E'.
    + rewrite E in Hc. cbn in Hc. unfold Driver.max_cycles in Hc. lia.
    + cbv zeta in E'. rewrite E'. rewrite E. cbn [fst snd].
      apply Z.eqb_neq in Hhigh. rewrite Hhigh. reflexivity.
  - right. split; [exact Hlow|]. exact (Htimeout Hlow).
Qed.

End DriverTimeout.

Lemma latency_edges_count (n : nat) (w : Stubs.latency) :
  Stubs.p_loadingValues (Stubs.lat_pins w) = 0 ->
  edges n w
  = Stubs.mkLat (Stubs.lat_pins w) (Stubs.lat_delay w) (Stubs.lat_result w)
                (Stubs.lat_count w + Z.of_nat n).
Proof.
  revert w. induction n as [|n IH]; intros w Hp.
  - destruct w; cbn. now rewrite Z.add_0_r.
  - cbn [edges]. rewrite IH.
    + cbn. unfold Stubs.latency_edge. rewrite Hp. cbn. f_equal. lia.
    + cbn. unfold Stubs.latency_edge. rewrite Hp. cbn. exact Hp.
Qed.

Lemma valid_on_the_bound_edge_is_a_timeout_witness :
  snd (Driver.drive_transaction
         (Driver.mkDrv (Stubs.latency_start 1000 6) [])
         (set_value2 18 (set_value1 48 (new_txn "t"))))
  = set_value2 18 (set_value1 48 (new_txn "t"))
  /\ read_outputValid
       (Driver.dut
          (fst (Driver.drive_transaction
                  (Driver.mkDrv (Stubs.latency_start 1000 6) [])
                  (set_value2 18 (set_value1 48 (new_txn "t"))))))
     = 1.
Proof.
  pose proof (proj1 (valid_on_the_bound_edge_is_a_timeout
                       (Driver.mkDrv (Stubs.latency_start 1000 6) [])
                       (set_value2 18 (set_value1 48 (new_txn "t"))))) as Hw.
  cbv zeta in Hw. cbn [Driver.dut] in Hw.
  assert (Ew : Driver.load_and_drain (Stubs.latency_start 1000 6)
                 (set_value2 18 (set_value1 48 (new_txn "t")))
               = Stubs.mkLat (Stubs.mkPins 0 0 48 18) 1000 6 0)
    by (vm_compute; reflexivity).
  rewrite Ew in Hw.
  assert (Hlow : forall j, (j < 1000)%nat ->
                 read_outputValid
                   (edges j (Stubs.mkLat (Stubs.mkPins 0 0 48 18) 1000 6 0))
                 = 0).
  { intros j Hj. rewrite latency_edges_count by reflexivity.
    cbn. replace (Z.of_nat j >=? 1000) with false; [reflexivity|].
    symmetry. rewrite Z.geb_leb. apply Z.leb_gt. lia. }
  assert (Hhigh : read_outputValid
                    (edges 1000 (Stubs.mkLat (Stubs.mkPins 0 0 48 18) 1000 6 0))
                  = 1).
  { rewrite latency_edges_count by reflexivity. reflexivity. }
  rewrite (Hw Hlow Hhigh). cbn [fst snd Driver.dut].
  split; [reflexivity|exact Hhigh].
Defined.

(** ** A design that never answers *)

Section NeverValid.
Context {W : Type} `{DutHandle W}.
Hypothesis never_valid : forall w : W, read_outputValid w = 0.

Lemma drive_transaction_never_valid
      (d : Driver.GCDDriver W) (txn : GCDTransaction) :
  Driver.drive_transaction d txn
  = (Driver.mkDrv
       (edges 1000 (Driver.load_and_drain (Driver.dut d) txn))
       (log ERROR (MsgDriverTimeout txn) (Driver.drv_logger d)),
     txn).
Proof.
  destruct (drive_transaction_cases d txn) as [[_ E]|[Hc _]].
  - rewrite E, wait_phase_exhausts by (intros; apply never_valid).
    reflexivity.
  - rewrite wait_phase_exhausts in Hc by (intros; apply never_valid).
    cbn in Hc. unfold Driver.max_cycles in Hc. lia.
Qed.

Lemma process_item_never_valid (e : Env.GCDEnv W) (txn : GCDTransaction) :
  Env.ap (Env.process_item e txn) = Env.ap e ++ [txn]
  /\ Env.items_done (Env.process_item e txn) = Env.items_done e + 1
  /\ Driver.drv_logger (Env.driver (Env.process_item e txn))
     = Driver.drv_logger (Env.driver e)
         ++ [mkLog INFO (MsgDriverReceived txn);
             mkLog ERROR (MsgDriverTimeout txn)].
Proof.
  unfold Env.process_item, Env.drive.
  rewrite drive_transaction_never_valid. cbn.
  repeat split. unfold log. now rewrite <- app_assoc.
Qed.

Lemma count_level_app (l : level) (a b : logger) :
  count_level l (a ++ b) = (count_level l a + count_level l b)%nat.
Proof. unfold count_level. now rewrite filter_app, length_app. Qed.

Lemma process_items_never_valid (items : list GCDTransaction) :
  forall e : Env.GCDEnv W,
    let e' := fold_left Env.process_item items e in
    Env.ap e' = Env.ap e ++ items
    /\ Env.items_done e' = Env.items_done e + Z.of_nat (List.length items)
    /\ count_level ERROR (Driver.drv_logger (Env.driver e'))
       = (count_level ERROR (Driver.drv_logger (Env.driver e))
          + List.length items)%nat.
Proof.
  induction items as [|t items IH]; intro e; cbn zeta.
  - cbn. rewrite app_nil_r, Z.add_0_r, Nat.add_0_r. repeat split.
  - cbn [fold_left].
    destruct (process_item_never_valid e t) as (Ha & Hd & Hl).
    destruct (IH (Env.process_item e t)) as (Ha' & Hd' & Hl').
    cbn zeta in Ha', Hd', Hl'.
    rewrite Ha', Hd', Hl', Ha, Hd, Hl, count_level_app.
    split; [now rewrite <- app_assoc|].
    split; [cbn [List.length]; lia|].
    cbn [List.length]. unfold count_level at 2. cbn. lia.
Qed.

(** C3. Against a design that never asserts result-valid the wait phase
    ends after exactly 1000 clock edges with [cycles] at the bound; the
    driver logs one error, hands the transaction back with its output
    fields as they were, and still publishes it (so with [outputValid]
    false when it came in that way, as every fresh transaction does).
    The run goes on: every item of the sequence is published and
    acknowledged in turn, with one error logged for each. *)
Theorem timeout_is_bounded_and_not_fatal :
  (forall w : W, Driver.wait_phase w = (edges 1000 w, 1000))
  /\ (forall (d : Driver.GCDDriver W) (txn : GCDTransaction),
         snd (Driver.drive_transaction d txn) = txn
         /\ Driver.drv_logger (fst (Driver.drive_transaction d txn))
            = Driver.drv_logger d ++ [mkLog ERROR (MsgDriverTimeout txn)])
  /\ (forall (e : Env.GCDEnv W) (txn : GCDTransaction),
         Env.ap (Env.process_item e txn) = Env.ap e ++ [txn]
         /\ (outputValid txn = false ->
             Forall (fun t => outputValid t = false) (Env.ap e) ->
             Forall (fun t => outputValid t = false)
                    (Env.ap (Env.process_item e txn))))
  /\ (forall (w : W) (items : list GCDTransaction),
         let e := Env.run_phase (Env.build w) items in
         Env.ap e = items
         /\ Env.items_done e = Z.of_nat (List.length items)
         /\ count_level ERROR (Driver.drv_logger (Env.driver e))
            = List.length items).
Proof.
  split; [|split; [|split]].
  - intro w. apply wait_phase_exhausts. intros; apply never_valid.
  - intros d txn. rewrite drive_transaction_never_valid. cbn. split; reflexivity.
  - intros e txn. destruct (process_item_never_valid e txn) as (Ha & _).
    split; [exact Ha|]. intros Hv Hall. rewrite Ha.
    apply Forall_app. split; [exact Hall|]. constructor; [exact Hv|constructor].
  - intros w items e. subst e. unfold Env.run_phase.
    destruct (process_items_never_valid items (Env.reset (Env.build w)))
      as (Ha & Hd & Hl).
    cbn zeta in Ha, Hd, Hl. rewrite Ha, Hd, Hl. cbn. repeat split.
Qed.

End NeverValid.

Lemma timeout_is_bounded_and_not_fatal_witness :
  (forall w : Stubs.silent, read_outputValid w = 0)
  /\ Driver.wait_phase (Stubs.mkSilent Stubs.no_pins 0)
     = (Stubs.mkSilent Stubs.no_pins 1000, 1000)
  /\ Env.ap (Env.run_phase (Env.build (Stubs.mkSilent Stubs.no_pins 0))
                           five_items)
     = five_items.
Proof.
  assert (Hsilent : forall w : Stubs.silent, read_outputValid w = 0)
    by (intro w; reflexivity).
  destruct (timeout_is_bounded_and_not_fatal Hsilent) as (Hwait & _ & _ & Hrun).
  split; [exact Hsilent|]. split.
  - rewrite Hwait. vm_compute. reflexivity.
  - apply (Hrun (Stubs.mkSilent Stubs.no_pins 0) five_items).
Defined.

(** ** The directed vectors *)

Lemma receive_all_correct_answers (txns : list GCDTransaction) :
  forall sb,
    Forall (fun t => outputGCD t = Z.gcd (value1 t) (value2 t)
                     /\ outputValid t = true) txns ->
    Scoreboard.passed (Scoreboard.receive_all sb txns)
    = Scoreboard.passed sb + Z.of_nat (List.length txns)
    /\ Scoreboard.failed (Scoreboard.receive_all sb txns)
       = Scoreboard.failed sb.
Proof.
  induction txns as [|t txns IH]; intros sb Hall.
  - cbn. split; lia.
  - inversion Hall as [|? ? [Hg Hv] Hrest]; subst.
    change (Scoreboard.receive_all sb (t :: txns))
      with (Scoreboard.receive_all (Scoreboard.check_transaction sb t) txns).
    destruct (IH (Scoreboard.check_transaction sb t) Hrest) as [Hp Hf].
    destruct (check_transaction_pass sb t Hg Hv) as [Hp1 Hf1].
    rewrite Hp, Hf, Hp1, Hf1. cbn [List.length]. split; lia.
Qed.

Section DirectedVectors.
Context {W : Type} `{DutHandle W}.

(** C7. The reference gcd of the five pairs (48,18), (17,19), (100,100),
    (1071,462), (256,1024) is 6, 1, 100, 21, 256.  In a run over exactly
    these five items in which the design answers each with that value
    and result-valid set, the scoreboard ends with [passed = 5] and
    [failed = 0]. *)
Theorem five_directed_vectors_pass :
  forall w : W,
    let e := Env.run_phase (Env.build w) five_items in
    map (fun p => Z.gcd (fst p) (snd p)) five_pairs = [6; 1; 100; 21; 256]
    /\ (map outputGCD (Env.ap e) = [6; 1; 100; 21; 256] ->
        Forall (fun t => outputValid t = true) (Env.ap e) ->
        Scoreboard.passed (Env.scoreboard e) = 5
        /\ Scoreboard.failed (Env.scoreboard e) = 0).
Proof.
  intros w e. split; [reflexivity|]. intros Hout Hvalid.
  destruct (run_phase_fields w five_items) as (Hops & Hsb & _).
  fold e in Hops, Hsb. rewrite Hsb.
  assert (Hall : Forall (fun t => outputGCD t = Z.gcd (value1 t) (value2 t)
                                  /\ outputValid t = true) (Env.ap e)).
  { revert Hops Hout Hvalid. generalize (Env.ap e). intros l Hops Hout Hvalid.
    unfold five_items, five_pairs in Hops. cbn in Hops.
    repeat match goal with
           | Hf : Forall2 _ (_ :: _) _ |- _ =>
               inversion Hf as [|? ? ? ? [? ?] ?]; subst; clear Hf
           | Hf : Forall2 _ [] _ |- _ => inversion Hf; subst; clear Hf
           end.
    cbn in Hout. injection Hout as ? ? ? ? ?.
    repeat match goal with
           | Hf : Forall _ (_ :: _) |- _ => inversion Hf; subst; clear Hf
           end.
    cbn in *.
    repeat constructor; try assumption;
      repeat match goal with Hx : _ = _ |- _ => rewrite Hx; clear Hx end;
      reflexivity. }
  destruct (receive_all_correct_answers (Env.ap e) Scoreboard.init Hall)
    as [Hp Hf].
  rewrite Hp, Hf.
  assert (Hlen : List.length (Env.ap e) = 5%nat)
    by (symmetry; apply (Forall2_length Hops)).
  rewrite Hlen. split; reflexivity.
Qed.

End DirectedVectors.

Lemma five_directed_vectors_pass_witness :
  map outputGCD
      (Env.ap (Env.run_phase (Env.build Stubs.subgcd_start) five_items))
  = [6; 1; 100; 21; 256]
  /\ Forall (fun t => outputValid t = true)
            (Env.ap (Env.run_phase (Env.build Stubs.subgcd_start) five_items))
  /\ Scoreboard.passed
       (Env.scoreboard (Env.run_phase (Env.build Stubs.subgcd_start) five_items))
     = 5
  /\ Scoreboard.failed
       (Env.scoreboard (Env.run_phase (Env.build Stubs.subgcd_start) five_items))
     = 0.
Proof.
  assert (Hout : map outputGCD
                     (Env.ap (Env.run_phase (Env.build Stubs.subgcd_start)
                                            five_items))
                 = [6; 1; 100; 21; 256]) by (vm_compute; reflexivity).
  assert (Hvalid : Forall (fun t => outputValid t = true)
                     (Env.ap (Env.run_phase (Env.build Stubs.subgcd_start)
                                            five_items))).
  { apply Forall_forall. intros t Hin.
    assert (Hb : forallb outputValid
                   (Env.ap (Env.run_phase (Env.build Stubs.subgcd_start)
                                          five_items)) = true)
      by (vm_compute; reflexivity).
    rewrite forallb_forall in Hb. exact (Hb t Hin). }
  split; [exact Hout|]. split; [exact Hvalid|].
  exact (proj2 (five_directed_vectors_pass Stubs.subgcd_start) Hout Hvalid).
Defined.

(** ** Coverage *)

Section CoverageFacts.
Import Coverage.

Lemma pow2_land_pred (k : Z) : 0 <= k -> Z.land (2 ^ k) (2 ^ k - 1) = 0.
Proof.
  intro Hk. replace (2 ^ k - 1) with (Z.ones k)
    by (rewrite Z.ones_equiv; lia).
  rewrite Z.land_ones by exact Hk. apply Z_mod_same_full.
Qed.

(** Above a power of two, [n] and [n - 1] share their top bit. *)
Lemma land_pred_top_bit (n : Z) :
  0 < n -> n <> 2 ^ Z.log2 n -> Z.testbit (Z.land n (n - 1)) (Z.log2 n) = true.
Proof.
  intros Hpos Hne.
  destruct (Z.log2_spec n Hpos) as [Hlo Hhi].
  assert (Hpred : Z.log2 (n - 1) = Z.log2 n).
  { apply Z.log2_unique; [apply Z.log2_nonneg|]. lia. }
  rewrite Z.land_spec, Z.bit_log2 by exact Hpos.
  rewrite <- Hpred at 1. rewrite Z.bit_log2; [reflexivity|].
  pose proof (Z.pow_pos_nonneg 2 (Z.log2 n) ltac:(lia) (Z.log2_nonneg n)).
  lia.
Qed.

(** [is_power_of_two] holds of the powers of two and of nothing else. *)
Lemma is_power_of_two_spec (n : Z) :
  is_power_of_two n = true <-> exists k, 0 <= k /\ n = 2 ^ k.
Proof.
  unfold is_power_of_two. rewrite andb_true_iff, Z.gtb_lt, Z.eqb_eq.
  split.
  - intros [Hpos Hland]. exists (Z.log2 n).
    split; [apply Z.log2_nonneg|].
    destruct (Z.eq_dec n (2 ^ Z.log2 n)) as [E|Hne]; [exact E|].
    pose proof (land_pred_top_bit n Hpos Hne) as Hbit.
    rewrite Hland, Z.bits_0 in Hbit. discriminate.
  - intros (k & Hk & ->). split.
    + apply Z.pow_pos_nonneg; lia.
    + now apply pow2_land_pred.
Qed.

Lemma write_fields (c : GCDCoverage) (txn : GCDTransaction) :
  let bump (b : bool) (n : Z) := if b then n + 1 else n in
  total_transactions (write c txn) = total_transactions c + 1
  /\ zero_cases (write c txn)
     = bump ((value1 txn =? 0) || (value2 txn =? 0)) (zero_cases c)
  /\ one_cases (write c txn)
     = bump ((value1 txn =? 1) || (value2 txn =? 1)) (one_cases c)
  /\ equal_cases (write c txn)
     = bump (value1 txn =? value2 txn) (equal_cases c)
  /\ coprime_cases (write c txn)
     = bump (outputGCD txn =? 1) (coprime_cases c)
  /\ max_value_cases (write c txn)
     = bump ((value1 txn =? 65535) || (value2 txn =? 65535))
            (max_value_cases c)
  /\ power_of_two_cases (write c txn)
     = bump (is_power_of_two (value1 txn) || is_power_of_two (value2 txn))
            (power_of_two_cases c).
Proof.
  intro bump. unfold write, bump.
  destruct ((value1 txn =? 0) || (value2 txn =? 0)),
           ((value1 txn =? 1) || (value2 txn =? 1)),
           (value1 txn =? value2 txn),
           (outputGCD txn =? 1),
           ((value1 txn =? 65535) || (value2 txn =? 65535)),
           (is_power_of_two (value1 txn) || is_power_of_two (value2 txn));
    cbn; repeat split.
Qed.

Lemma counts_of_bool (b : bool) (P : Prop) (n : Z) :
  (b = true <-> P) -> counts P n (if b then n + 1 else n).
Proof.
  intros Hb. unfold counts. destruct b; split; intro Hp; try reflexivity.
  - exfalso. apply Hp, Hb. reflexivity.
  - apply Hb in Hp. discriminate.
Qed.

Lemma orb_eqb_iff (a b v : Z) :
  (a =? v) || (b =? v) = true <-> a = v \/ b = v.
Proof. now rewrite orb_true_iff, !Z.eqb_eq. Qed.

(** C5. On every transaction the coverage collector receives, the total
    goes up by one and each bin counts its own condition whatever the
    others do: zero-operand (either input is 0), unity-operand (either
    input is 1), equal-operands, coprime-result (the gcd in the
    transaction's output field is 1), boundary-value (either input is
    65535) and power-of-two-operand (either input is a positive power of
    two, which is what [n > 0 and (n & (n - 1)) == 0] tests).  When the
    observed output is the reference gcd the coprime bin counts the
    operands being coprime.  A transaction (17, 19) with output 1 moves
    the coprime bin by one and leaves the zero and equal bins; one with
    operands (256, 1024) moves the power-of-two bin by one. *)
Theorem coverage_bins_count_independently :
  (forall c txn,
      total_transactions (write c txn) = total_transactions c + 1
      /\ counts (value1 txn = 0 \/ value2 txn = 0)
                (zero_cases c) (zero_cases (write c txn))
      /\ counts (value1 txn = 1 \/ value2 txn = 1)
                (one_cases c) (one_cases (write c txn))
      /\ counts (value1 txn = value2 txn)
                (equal_cases c) (equal_cases (write c txn))
      /\ counts (outputGCD txn = 1)
                (coprime_cases c) (coprime_cases (write c txn))
      /\ (outputGCD txn = Z.gcd (value1 txn) (value2 txn) ->
          counts (Z.gcd (value1 txn) (value2 txn) = 1)
                 (coprime_cases c) (coprime_cases (write c txn)))
      /\ counts (value1 txn = 65535 \/ value2 txn = 65535)
                (max_value_cases c) (max_value_cases (write c txn))
      /\ counts ((exists k, 0 <= k /\ value1 txn = 2 ^ k)
                 \/ (exists k, 0 <= k /\ value2 txn = 2 ^ k))
                (power_of_two_cases c) (power_of_two_cases (write c txn)))
  /\ (forall n, is_power_of_two n = (n >? 0) && (Z.land n (n - 1) =? 0))
  /\ (forall c txn,
         value1 txn = 17 -> value2 txn = 19 -> outputGCD txn = 1 ->
         coprime_cases (write c txn) = coprime_cases c + 1
         /\ zero_cases (write c txn) = zero_cases c
         /\ equal_cases (write c txn) = equal_cases c)
  /\ (forall c txn,
         value1 txn = 256 ->
         power_of_two_cases (write c txn) = power_of_two_cases c + 1).
Proof.
  assert (Hbins : forall c txn,
      total_transactions (write c txn) = total_transactions c + 1
      /\ counts (value1 txn = 0 \/ value2 txn = 0)
                (zero_cases c) (zero_cases (write c txn))
      /\ counts (value1 txn = 1 \/ value2 txn = 1)
                (one_cases c) (one_cases (write c txn))
      /\ counts (value1 txn = value2 txn)
                (equal_cases c) (equal_cases (write c txn))
      /\ counts (outputGCD txn = 1)
                (coprime_cases c) (coprime_cases (write c txn))
      /\ (outputGCD txn = Z.gcd (value1 txn) (value2 txn) ->
          counts (Z.gcd (value1 txn) (value2 txn) = 1)
                 (coprime_cases c) (coprime_cases (write c txn)))
      /\ counts (value1 txn = 65535 \/ value2 txn = 65535)
                (max_value_cases c) (max_value_cases (write c txn))
      /\ counts ((exists k, 0 <= k /\ value1 txn = 2 ^ k)
                 \/ (exists k, 0 <= k /\ value2 txn = 2 ^ k))
                (power_of_two_cases c) (power_of_two_cases (write c txn))).
  { intros c txn.
    destruct (write_fields c txn) as (Ht & Hz & Ho & He & Hc & Hm & Hp).
    cbv zeta beta in Hz, Ho, He, Hc, Hm, Hp.
    rewrite Hz, Ho, He, Hc, Hm, Hp.
    split; [exact Ht|].
    split; [apply counts_of_bool, orb_eqb_iff|].
    split; [apply counts_of_bool, orb_eqb_iff|].
    split; [apply counts_of_bool, Z.eqb_eq|].
    split; [apply counts_of_bool, Z.eqb_eq|].
    split; [intro Hobs; apply counts_of_bool; rewrite Z.eqb_eq, Hobs; tauto|].
    split; [apply counts_of_bool, orb_eqb_iff|].
    apply counts_of_bool.
    now rewrite orb_true_iff, !is_power_of_two_spec. }
  split; [exact Hbins|]. split; [reflexivity|]. split.
  - intros c txn H1 H2 Hg.
    destruct (Hbins c txn) as (_ & Hz & _ & He & Hc & _).
    split; [apply Hc, Hg|]. split.
    + apply Hz. rewrite H1, H2. intros [E|E]; discriminate.
    + apply He. rewrite H1, H2. discriminate.
  - intros c txn H1.
    destruct (Hbins c txn) as (_ & _ & _ & _ & _ & _ & _ & Hp).
    apply Hp. left. exists 8. rewrite H1. split; [lia|reflexivity].
Qed.

Lemma coverage_bins_count_independently_witness :
  (coprime_cases (write init (mkTxn "t" 17 19 true 1 true)) = 1
   /\ zero_cases (write init (mkTxn "t" 17 19 true 1 true)) = 0
   /\ equal_cases (write init (mkTxn "t" 17 19 true 1 true)) = 0)
  /\ power_of_two_cases (write init (mkTxn "t" 256 1024 true 256 true)) = 1.
Proof.
  destruct coverage_bins_count_independently as (_ & _ & H17 & H256).
  split.
  - exact (H17 init (mkTxn "t" 17 19 true 1 true) eq_refl eq_refl eq_refl).
  - exact (H256 init (mkTxn "t" 256 1024 true 256 true) eq_refl).
Defined.

End CoverageFacts.

(** ** Monitor *)

Section MonitorFacts.
Context {W : Type} `{DutHandle W}.

Lemma monitor_iteration_idle (m : Monitor.GCDMonitor W) :
  read_loadingValues (rising_edge (Monitor.dut m)) <> 1 ->
  Monitor.run_phase_iteration m
  = Monitor.mkMon (rising_edge (Monitor.dut m)) (Monitor.mon_logger m)
                  (Monitor.ap m).
Proof.
  intro Hl. unfold Monitor.run_phase_iteration.
  apply Z.eqb_neq in Hl. rewrite Hl. reflexivity.
Qed.

Lemma monitor_iteration_timeout (m : Monitor.GCDMonitor W) :
  let w := rising_edge (Monitor.dut m) in
  read_loadingValues w = 1 ->
  (forall j, (j < 1000)%nat -> read_outputValid (edges j w) = 0) ->
  Monitor.run_phase_iteration m
  = Monitor.mkMon (edges 1000 w)
      (log WARNING (MsgMonitorTimeout (read_value1 w) (read_value2 w))
           (Monitor.mon_logger m))
      (Monitor.ap m).
Proof.
  intros w Hl Hlow. unfold Monitor.run_phase_iteration. fold w.
  apply Z.eqb_eq in Hl. rewrite Hl.
  change (poll (fun v => v =? 0) Monitor.max_cycles
               (Z.to_nat Monitor.max_cycles) w 0)
    with (Driver.wait_phase w).
  rewrite (wait_phase_exhausts w Hlow). reflexivity.
Qed.

Lemma monitor_iteration_success (m : Monitor.GCDMonitor W) (n : nat) :
  let w := rising_edge (Monitor.dut m) in
  let txn := mkTxn "monitored_txn" (read_value1 w) (read_value2 w) true
                   (read_outputGCD (edges n w)) true in
  read_loadingValues w = 1 ->
  (n < 1000)%nat ->
  (forall j, (j < n)%nat -> read_outputValid (edges j w) = 0) ->
  read_outputValid (edges n w) <> 0 ->
  Monitor.run_phase_iteration m
  = Monitor.mkMon (edges n w)
      (log DEBUG (MsgMonitorObserved txn) (Monitor.mon_logger m))
      (Monitor.ap m ++ [txn]).
Proof.
  intros w txn Hl Hn Hlow Hhigh. unfold Monitor.run_phase_iteration. fold w.
  apply Z.eqb_eq in Hl. rewrite Hl.
  change (poll (fun v => v =? 0) Monitor.max_cycles
               (Z.to_nat Monitor.max_cycles) w 0)
    with (Driver.wait_phase w).
  rewrite (wait_phase_succeeds w n Hn Hlow Hhigh).
  replace (Z.of_nat n <? Monitor.max_cycles) with true
    by (symmetry; apply Z.ltb_lt; unfold Monitor.max_cycles; lia).
  apply Z.eqb_neq in Hhigh. rewrite Hhigh. reflexivity.
Qed.

(** C6. The monitor waits with the same bound of 1000 edges as the
    driver.  When it has sampled a load and result-valid stays low
    through the bound, the transaction it built is dropped: one warning
    is logged and nothing is written to the analysis port.  Only when the
    flag comes up at a sample below the bound are the outputs captured
    and the transaction published. *)
Theorem monitor_drops_timed_out_transaction :
  Monitor.max_cycles = Driver.max_cycles
  /\ Monitor.max_cycles = 1000
  /\ forall m : Monitor.GCDMonitor W,
      let w := rising_edge (Monitor.dut m) in
      let m' := Monitor.run_phase_iteration m in
      read_loadingValues w = 1 ->
      ((forall j, (j < 1000)%nat -> read_outputValid (edges j w) = 0) ->
       Monitor.ap m' = Monitor.ap m
       /\ Monitor.mon_logger m'
          = Monitor.mon_logger m
              ++ [mkLog WARNING
                    (MsgMonitorTimeout (read_value1 w) (read_value2 w))])
      /\ (forall n : nat,
             (n < 1000)%nat ->
             (forall j, (j < n)%nat -> read_outputValid (edges j w) = 0) ->
             read_outputValid (edges n w) <> 0 ->
             Monitor.ap m'
             = Monitor.ap m
                 ++ [mkTxn "monitored_txn" (read_value1 w) (read_value2 w) true
                           (read_outputGCD (edges n w)) true]
             /\ count_level WARNING (Monitor.mon_logger m')
                = count_level WARNING (Monitor.mon_logger m)).
Proof.
  split; [reflexivity|]. split; [reflexivity|].
  intros m w m' Hl. subst m'. split.
  - intro Hlow. rewrite (monitor_iteration_timeout m Hl Hlow).
    split; reflexivity.
  - intros n Hn Hlow Hhigh.
    rewrite (monitor_iteration_success m n Hl Hn Hlow Hhigh).
    cbn [Monitor.ap Monitor.mon_logger]. split; [reflexivity|].
    unfold log, count_level. rewrite filter_app, length_app. cbn. lia.
Qed.

(** What one turn of the loop can add to the analysis port. *)
Lemma monitor_iteration_publishes (m : Monitor.GCDMonitor W) :
  let w := rising_edge (Monitor.dut m) in
  Monitor.ap (Monitor.run_phase_iteration m) = Monitor.ap m
  \/ exists n : nat,
      (n < 1000)%nat
      /\ read_loadingValues w = 1
      /\ (forall j, (j < n)%nat -> read_outputValid (edges j w) = 0)
      /\ read_outputValid (edges n w) <> 0
      /\ Monitor.ap (Monitor.run_phase_iteration m)
         = Monitor.ap m
             ++ [mkTxn "monitored_txn" (read_value1 w) (read_value2 w) true
                       (read_outputGCD (edges n w)) true].
Proof.
  intro w.
  destruct (Z.eq_dec (read_loadingValues w) 1) as [Hl|Hl].
  - destruct (wait_phase_cases w) as [(n & Hn & Hlow & Hhigh & _)|[Hlow _]].
    + right. exists n. repeat (split; [assumption|]).
      now rewrite (monitor_iteration_success m n Hl Hn Hlow Hhigh).
    + left. now rewrite (monitor_iteration_timeout m Hl Hlow).
  - left. now rewrite (monitor_iteration_idle m Hl).
Qed.

Lemma monitor_run_extends (n : nat) :
  forall m : Monitor.GCDMonitor W,
  exists new,
    Monitor.ap (Monitor.run_phase n m) = Monitor.ap m ++ new
    /\ Forall (fun t => outputValid t = true) new.
Proof.
  induction n as [|n IH]; intro m.
  - exists []. cbn. now rewrite app_nil_r.
  - cbn [Monitor.run_phase].
    destruct (IH (Monitor.run_phase_iteration m)) as (new & Ha & Hv).
    destruct (monitor_iteration_publishes m) as [E|(k & _ & _ & _ & _ & E)].
    + exists new. rewrite Ha, E. split; [reflexivity|exact Hv].
    + eexists (_ :: new). rewrite Ha, E, <- app_assoc. cbn [app].
      split; [reflexivity|]. constructor; [reflexivity|exact Hv].
Qed.

(** C10. Whatever one turn of the monitor's loop writes to its analysis
    port has [outputValid] true and carries in [outputGCD] the output
    field sampled at the first sample [n] at which result-valid was seen
    high; so over any number of turns every transaction the monitor
    publishes has [outputValid] true, and none has it false. *)
Theorem monitor_publishes_only_valid_results :
  (forall m : Monitor.GCDMonitor W,
      let w := rising_edge (Monitor.dut m) in
      Monitor.ap (Monitor.run_phase_iteration m) = Monitor.ap m
      \/ exists (n : nat) (t : GCDTransaction),
          Monitor.ap (Monitor.run_phase_iteration m) = Monitor.ap m ++ [t]
          /\ outputValid t = true
          /\ outputGCD t = read_outputGCD (edges n w)
          /\ value1 t = read_value1 w /\ value2 t = read_value2 w
          /\ (n < 1000)%nat
          /\ read_outputValid (edges n w) <> 0
          /\ (forall j, (j < n)%nat -> read_outputValid (edges j w) = 0))
  /\ (forall (n : nat) (m : Monitor.GCDMonitor W),
         exists new,
           Monitor.ap (Monitor.run_phase n m) = Monitor.ap m ++ new
           /\ Forall (fun t => outputValid t = true) new
           /\ ~ Exists (fun t => outputValid t = false) new).
Proof.
  split.
  - intros m w.
    destruct (monitor_iteration_publishes m)
      as [E|(n & Hn & _ & Hlow & Hhigh & E)]; [left; exact E|].
    right. eexists n, _. split; [exact E|]. cbn. repeat split; assumption.
  - intros n m. destruct (monitor_run_extends n m) as (new & Ha & Hv).
    exists new. split; [exact Ha|]. split; [exact Hv|].
    intro Hex. apply Exists_exists in Hex. destruct Hex as (t & Hin & Hf).
    rewrite Forall_forall in Hv. rewrite (Hv t Hin) in Hf. discriminate.
Qed.

End MonitorFacts.

Lemma monitor_publishes_only_valid_results_witness :
  Monitor.ap (Monitor.run_phase 3 (Monitor.mkMon (Stubs.one_load 7) [] []))
  = [mkTxn "monitored_txn" 48 18 true 6 true]
  /\ Forall (fun t => outputValid t = true)
            (Monitor.ap
               (Monitor.run_phase 3 (Monitor.mkMon (Stubs.one_load 7) [] []))).
Proof.
  split; [vm_compute; reflexivity|].
  destruct (proj2 monitor_publishes_only_valid_results 3%nat
                  (Monitor.mkMon (Stubs.one_load 7) [] []))
    as (new & Ha & Hv & _).
  rewrite Ha. exact Hv.
Defined.

Lemma monitor_drops_timed_out_transaction_witness :
  Monitor.ap (Monitor.run_phase_iteration
                (Monitor.mkMon (Stubs.one_load 5000) [] []))
  = []
  /\ Monitor.ap (Monitor.run_phase_iteration
                   (Monitor.mkMon (Stubs.one_load 7) [] []))
     = [mkTxn "monitored_txn" 48 18 true 6 true].
Proof.
  split.
  - refine (proj1 (proj1 (proj2 (proj2 monitor_drops_timed_out_transaction)
                            (Monitor.mkMon (Stubs.one_load 5000) [] [])
                            eq_refl) _)).
    intros j Hj. apply Z.eqb_eq.
    apply (forallb_seq_lt
             (fun j => read_outputValid
                         (edges j (rising_edge (Stubs.one_load 5000))) =? 0)
             1000); [vm_compute; reflexivity|exact Hj].
  - refine (proj1 (proj2 (proj2 (proj2 monitor_drops_timed_out_transaction)
                            (Monitor.mkMon (Stubs.one_load 7) [] [])
                            eq_refl) 6%nat _ _ _)).
    + lia.
    + intros j Hj. apply Z.eqb_eq.
      apply (forallb_seq_lt
               (fun j => read_outputValid
                           (edges j (rising_edge (Stubs.one_load 7))) =? 0)
               6); [vm_compute; reflexivity|exact Hj].
    + vm_compute. discriminate.
Defined.

(** ** Stimulus policies *)

Lemma Qltb_lt (x y : Q) : Qltb x y = true <-> (x < y)%Q.
Proof.
  unfold Qltb. destruct (Qlt_le_dec x y) as [Hlt|Hle].
  - tauto.
  - split; [discriminate|]. intro Hlt. exfalso.
    exact (Qlt_not_le _ _ Hlt Hle).
Qed.

Lemma Qltb_ge (x y : Q) : Qltb x y = false -> (y <= x)%Q.
Proof.
  unfold Qltb. destruct (Qlt_le_dec x y) as [Hlt|Hle];
    [discriminate|intros _; exact Hle].
Qed.



Section RandomPolicy.
Context {G : Type} `{RandomSourceOk G}.

Lemma randomize_tiers (txn : GCDTransaction) (g : G) :
  tiered_draw float_0_7 float_0_7 float_0_8 float_0_8 g
              (fst (Sequences.randomize txn g))
  /\ loadingValues (fst (Sequences.randomize txn g)) = true.
Proof.
  unfold tiered_draw, Sequences.randomize.
  destruct (random g) as [r1 g1]. cbn [fst snd].
  destruct (Qltb r1 float_0_7) eqn:E1.
  - apply Qltb_lt in E1.
    assert (N1 : ~ (float_0_7 <= r1)%Q) by (apply Qlt_not_le, E1).
    pose proof (randint_range 1 10000 g1 ltac:(lia)) as Ha.
    destruct (randint 1 10000 g1) as [a ga]. cbn [fst snd] in *.
    pose proof (randint_range 1 10000 ga ltac:(lia)) as Hb.
    destruct (randint 1 10000 ga) as [b gb]. cbn [fst snd] in *.
    cbn. repeat split; try tauto; try lia.
  - apply Qltb_ge in E1.
    assert (N1 : ~ (r1 < float_0_7)%Q) by (apply Qle_not_lt, E1).
    destruct (random g1) as [r2 g2]. cbn [fst snd].
    destruct (Qltb r2 float_0_8) eqn:E2.
    + apply Qltb_lt in E2.
      assert (N2 : ~ (float_0_8 <= r2)%Q) by (apply Qlt_not_le, E2).
      pose proof (randint_range 1 1000 g2 ltac:(lia)) as Ha.
      destruct (randint 1 1000 g2) as [a ga]. cbn [fst snd] in *.
      pose proof (randint_range 1 1000 ga ltac:(lia)) as Hb.
      destruct (randint 1 1000 ga) as [b gb]. cbn [fst snd] in *.
      cbn. repeat split; try tauto; try lia.
    + apply Qltb_ge in E2.
      assert (N2 : ~ (r2 < float_0_8)%Q) by (apply Qle_not_lt, E2).
      pose proof (randint_range 1 20000 g2 ltac:(lia)) as Hbase.
      destruct (randint 1 20000 g2) as [base gb]. cbn [fst snd] in *.
      pose proof (randint_range 1 3 gb ltac:(lia)) as Hm1.
      destruct (randint 1 3 gb) as [m1 g3]. cbn [fst snd] in *.
      pose proof (randint_range 1 3 g3 ltac:(lia)) as Hm2.
      destruct (randint 1 3 g3) as [m2 g4]. cbn [fst snd] in *.
      cbn. repeat split; try tauto; try lia.
Qed.


Lemma randomize_nonzero (txn : GCDTransaction) (g : G) :
  nonzero_operands (fst (Sequences.randomize txn g)).
Proof.
  destruct (randomize_tiers txn g) as ((T1 & T2 & T3) & _).
  cbv zeta in T1, T2, T3. unfold nonzero_operands.
  destruct (Qlt_le_dec (fst (random g)) float_0_7) as [L1|L1].
  - destruct (T1 L1) as (_ & _ & ? & ?). lia.
  - destruct (Qlt_le_dec (fst (random (snd (random g)))) float_0_8)
      as [L2|L2].
    + destruct (T2 L1 L2) as (_ & _ & ? & ?). lia.
    + destruct (T3 L1 L2) as (Hb & Hm1 & Hm2 & -> & ->). nia.
Qed.

Lemma random_items_nonzero (idx : list nat) :
  forall g : G, Forall nonzero_operands (fst (Sequences.random_items idx g)).
Proof.
  induction idx as [|i idx IH]; intro g; cbn [Sequences.random_items].
  - constructor.
  - pose proof (randomize_nonzero
                  (new_txn (Sequences.item_name "random_txn_" i)) g) as Hn.
    destruct (Sequences.randomize _ g) as [t g1]. cbn [fst] in Hn.
    specialize (IH g1). destruct (Sequences.random_items idx g1) as [ts g2].
    cbn [fst] in *. constructor; assumption.
Qed.

Lemma b2b_items_nonzero (idx : list nat) :
  forall g : G, Forall nonzero_operands (fst (Sequences.b2b_items idx g)).
Proof.
  induction idx as [|i idx IH]; intro g; cbn [Sequences.b2b_items].
  - constructor.
  - destruct (Z.of_nat i mod 3 =? 0).
    + pose proof (randint_range 1 100 g ltac:(lia)) as Ha.
      destruct (randint 1 100 g) as [a ga]. cbn [fst] in Ha.
      pose proof (randint_range 1 100 ga ltac:(lia)) as Hb.
      destruct (randint 1 100 ga) as [b gb]. cbn [fst] in Hb.
      specialize (IH gb). destruct (Sequences.b2b_items idx gb) as [ts g2].
      cbn [fst] in *. constructor; [|assumption].
      unfold nonzero_operands. cbn. lia.
    + pose proof (randomize_nonzero
                    (new_txn (Sequences.item_name "b2b_txn_" i)) g) as Hn.
      destruct (Sequences.randomize _ g) as [t g1]. cbn [fst] in Hn.
      specialize (IH g1). destruct (Sequences.b2b_items idx g1) as [ts g2].
      cbn [fst] in *. constructor; assumption.
Qed.


End RandomPolicy.

#[global] Instance replay_source_ok : RandomSourceOk Stubs.replay.
Proof.
  constructor. intros a b g Hab. cbn.
  match goal with
  | |- context [?d mod Z.max 1 ?y] =>
      pose proof (Z.mod_pos_bound d (Z.max 1 y) ltac:(lia))
  end.
  lia.
Qed.


(** ** Sequence, sequencer and driver *)

Section RendezvousFacts.
Context {W : Type} `{DutHandle W}.
Import Rendezvous.

Lemma steps_trans (c1 c2 c3 : config W) :
  steps c1 c2 -> steps c2 c3 -> steps c1 c3.
Proof.
  intros H12 H23. induction H23 as [|c2 c3 c4 _ IH Hs]; [exact H12|].
  eapply steps_snoc; [apply IH; exact H12 | exact Hs].
Qed.

Lemma process_item_stages (e : Env.GCDEnv W) (t : GCDTransaction) :
  Env.process_item e t
  = Env.item_done
      (Env.publish (fst (Env.drive (Env.receive e t) t))
                   (snd (Env.drive (Env.receive e t) t))).
Proof.
  unfold Env.process_item.
  destruct (Env.drive (Env.receive e t) t) as [e' t']. reflexivity.
Qed.

Lemma run_phase_snoc (e : Env.GCDEnv W) (fin : list GCDTransaction)
      (t : GCDTransaction) :
  Env.run_phase e (fin ++ [t]) = Env.process_item (Env.run_phase e fin) t.
Proof. unfold Env.run_phase. now rewrite fold_left_app. Qed.

Lemma serial_handoff_app (l1 l2 : list GCDTransaction) :
  forall e : Env.GCDEnv W,
    serial_handoff e (l1 ++ l2)
    = serial_handoff e l1 ++ serial_handoff (fold_left Env.process_item l1 e) l2.
Proof.
  induction l1 as [|t l1 IH]; intro e; [reflexivity|].
  cbn [app serial_handoff fold_left]. now rewrite IH.
Qed.

Lemma serial_driver_app (l1 l2 : list GCDTransaction) :
  forall e : Env.GCDEnv W,
    serial_driver e (l1 ++ l2)
    = serial_driver e l1 ++ serial_driver (fold_left Env.process_item l1 e) l2.
Proof.
  induction l1 as [|t l1 IH]; intro e; [reflexivity|].
  cbn [app serial_driver fold_left]. now rewrite IH.
Qed.

Lemma gots_of_serial_handoff (l : list GCDTransaction) :
  forall e : Env.GCDEnv W, flat_map got_of (serial_handoff e l) = l.
Proof.
  induction l as [|t l IH]; intro e; [reflexivity|].
  cbn. now rewrite IH.
Qed.

Lemma gots_ignore_pull (tr : list event) :
  flat_map got_of (filter is_handoff_event tr) = flat_map got_of tr.
Proof.
  induction tr as [|ev tr IH]; [reflexivity|].
  destruct ev; cbn; now rewrite IH.
Qed.

Lemma filter_snoc {A} (f : A -> bool) (l : list A) (x : A) :
  filter f (l ++ [x]) = filter f l ++ (if f x then [x] else []).
Proof. rewrite filter_app. reflexivity. Qed.

Lemma inv_initial (w : W) (items : list GCDTransaction) :
  inv w items (initial w items).
Proof.
  unfold initial.
  apply (inv_idle w items [] items _ _ _ []); try reflexivity.
  - left; reflexivity.
  - now constructor.
Qed.

(** Every scheduling step keeps the invariant. *)
Lemma inv_step (w : W) (items : list GCDTransaction) (c c' : config W) :
  inv w items c -> step c c' -> inv w items c'.
Proof.
  intros Hinv Hstep.
  destruct Hstep as
    [t todo q dp e tr Hslot | todo dp e tr | sp q e tr | sp q e tr
     | sp t b e tr | sp q t e tr | sp q t e tr | sp q e tr].
  - (* submit *)
    inversion Hinv as [fin todo0 sp0 dp0 e0 dtr tr0 Hitems Hsp Hdrv Hh Hd
                      | |]; subst.
    destruct Hsp as [Hsp|Hsp]; [|discriminate]. injection Hsp as <-.
    cbn [outstanding].
    eapply inv_offered; eauto.
    + rewrite filter_snoc, Hh. reflexivity.
    + rewrite filter_snoc, Hd. cbn. now rewrite app_nil_r.
  - (* resume *)
    inversion Hinv as [fin todo0 sp0 dp0 e0 dtr tr0 Hitems Hsp Hdrv Hh Hd
                      | |]; subst.
    destruct Hsp as [Hsp|Hsp]; [discriminate|]. injection Hsp as <-.
    eapply inv_idle; eauto.
  - (* reset *)
    inversion Hinv as [fin todo0 sp0 dp0 e0 dtr tr0 Hitems Hsp Hdrv Hh Hd
                      | fin t0 todo0 dp0 e0 dtr tr0 Hitems Hdrv Hh Hd
                      | fin t0 todo0 dp0 e0 evs tr0 Hitems Hdrv Hh Hd]; subst.
    + inversion Hdrv; subst.
      eapply inv_idle; eauto. apply (idle_top w []).
    + inversion Hdrv; subst.
      eapply inv_offered; eauto. apply (idle_top w []).
    + inversion Hdrv.
  - (* pull *)
    inversion Hinv as [fin todo0 sp0 dp0 e0 dtr tr0 Hitems Hsp Hdrv Hh Hd
                      | fin t0 todo0 dp0 e0 dtr tr0 Hitems Hdrv Hh Hd
                      | fin t0 todo0 dp0 e0 evs tr0 Hitems Hdrv Hh Hd]; subst.
    + inversion Hdrv; subst.
      eapply inv_idle; eauto using idle_get.
      * rewrite filter_snoc, Hh. cbn. now rewrite app_nil_r.
      * rewrite filter_snoc, Hd. cbn. now rewrite app_nil_r.
    + inversion Hdrv; subst.
      eapply inv_offered; eauto using idle_get.
      * rewrite filter_snoc, Hh. cbn. now rewrite app_nil_r.
      * rewrite filter_snoc, Hd. cbn. now rewrite app_nil_r.
    + inversion Hdrv.
  - (* get *)
    inversion Hinv as [| fin t0 todo0 dp0 e0 dtr tr0 Hitems Hdrv Hh Hd |];
      subst.
    inversion Hdrv; subst.
    eapply inv_busy; eauto using busy_drive.
    + rewrite filter_snoc, Hh. cbn. now rewrite <- app_assoc.
    + rewrite filter_snoc, Hd. cbn. now rewrite <- app_assoc.
  - (* drive *)
    inversion Hinv as [fin todo0 sp0 dp0 e0 dtr tr0 Hitems Hsp Hdrv Hh Hd
                      | fin t0 todo0 dp0 e0 dtr tr0 Hitems Hdrv Hh Hd
                      | fin t0 todo0 dp0 e0 evs tr0 Hitems Hdrv Hh Hd]; subst;
      inversion Hdrv; subst.
    eapply inv_busy; eauto using busy_publish.
  - (* publish *)
    inversion Hinv as [fin todo0 sp0 dp0 e0 dtr tr0 Hitems Hsp Hdrv Hh Hd
                      | fin t0 todo0 dp0 e0 dtr tr0 Hitems Hdrv Hh Hd
                      | fin t0 todo0 dp0 e0 evs tr0 Hitems Hdrv Hh Hd]; subst;
      inversion Hdrv; subst.
    eapply inv_busy; eauto using busy_done.
    + rewrite filter_snoc, Hh. cbn. now rewrite <- app_assoc.
    + rewrite filter_snoc, Hd. cbn. now rewrite <- app_assoc.
  - (* done *)
    inversion Hinv as [fin todo0 sp0 dp0 e0 dtr tr0 Hitems Hsp Hdrv Hh Hd
                      | fin t0 todo0 dp0 e0 dtr tr0 Hitems Hdrv Hh Hd
                      | fin t0 todo0 dp0 e0 evs tr0 Hitems Hdrv Hh Hd]; subst;
      inversion Hdrv; subst.
    cbn [slot].
    apply (inv_idle w _ (fin ++ [t0]) todo0 _ _ _ []).
    + now rewrite <- app_assoc.
    + right; reflexivity.
    + rewrite <- process_item_stages, <- run_phase_snoc. constructor.
    + rewrite filter_snoc, Hh, serial_handoff_app. cbn.
      rewrite <- app_assoc. reflexivity.
    + rewrite filter_snoc, Hd, serial_driver_app. cbn.
      rewrite <- !app_assoc. reflexivity.
Qed.

Lemma inv_reachable (w : W) (items : list GCDTransaction) (c : config W) :
  steps (initial w items) c -> inv w items c.
Proof.
  intro Hs. remember (initial w items) as c0 eqn:E.
  induction Hs as [c|c1 c2 c3 _ IH Hstep].
  - subst. apply inv_initial.
  - eapply inv_step; [apply IH; exact E | exact Hstep].
Qed.

Lemma prefix_app {A} (l x y : list A) :
  prefix x y -> prefix (l ++ x) (l ++ y).
Proof. intros [r ->]. exists r. now rewrite app_assoc. Qed.

Lemma prefix_app_r {A} (l r : list A) : prefix l (l ++ r).
Proof. now exists r. Qed.

Lemma idle_driver_prefix (w : W) (fin : list GCDTransaction) dp e dtr
      (rest : list event) :
  idle_driver w fin dp e dtr -> prefix dtr (Pull :: rest).
Proof.
  intro Hd. destruct Hd.
  - now exists (Pull :: rest).
  - now exists (Pull :: rest).
  - now exists rest.
Qed.

Lemma serial_driver_then_pull (e : Env.GCDEnv W) (l : list GCDTransaction) :
  exists rest, serial_driver e l ++ [Pull] = Pull :: rest.
Proof. destruct l as [|t l]; cbn; eexists; reflexivity. Qed.

Lemma busy_driver_prefix (w : W) (fin : list GCDTransaction) t dp e evs
      (rest : list event) :
  busy_driver w fin t dp e evs ->
  prefix evs
    (Got t
     :: Publish
          (snd (Env.drive (Env.receive (Env.run_phase (Env.build w) fin) t) t))
     :: rest)
  /\ flat_map got_of evs = [t].
Proof.
  intro Hb. destruct Hb; (split; [|reflexivity]).
  - now eexists.
  - now eexists.
  - now exists rest.
Qed.

(** In the serial run of the driver every take but the first comes
    right after the publish, the done-signal and the pull that follow
    the item before. *)
Lemma serial_driver_before_got (l : list GCDTransaction) :
  forall (e : Env.GCDEnv W) (pre post : list event) (t : GCDTransaction),
    serial_driver e l ++ [Pull] = pre ++ Got t :: post ->
    pre = [Pull]
    \/ exists pre' t', pre = pre' ++ [Publish t'; Done; Pull].
Proof.
  induction l as [|t0 l IH]; intros e pre post t E.
  - destruct pre as [|? [|? ?]]; cbn in E; discriminate.
  - cbn [serial_driver app] in E.
    destruct pre as [|p1 [|p2 [|p3 [|p4 pre]]]]; cbn in E;
      try discriminate; [left; congruence|].
    injection E as <- <- <- <- E.
    destruct (IH _ _ _ _ E) as [->|(pre' & t' & ->)].
    + right. exists [Pull; Got t0]. eexists. reflexivity.
    + right. eexists (_ :: _ :: _ :: _ :: pre'), t'. reflexivity.
Qed.

(** What the invariant says about the trace. *)
Lemma inv_trace (w : W) (items : list GCDTransaction) (c : config W) :
  inv w items c ->
  prefix (flat_map got_of (trace c)) items
  /\ prefix (filter is_driver_event (trace c))
            (serial_driver (Env.reset (Env.build w)) items ++ [Pull])
  /\ prefix (filter is_handoff_event (trace c))
            (serial_handoff (Env.reset (Env.build w)) items)
  /\ (seqp c = SeqProduce [] ->
      flat_map got_of (trace c) = items
      /\ filter is_handoff_event (trace c)
         = serial_handoff (Env.reset (Env.build w)) items).
Proof.
  intro Hinv.
  destruct Hinv as [fin todo sp dp e dtr tr Hitems Hsp Hdrv Hh Hd
                   | fin t todo dp e dtr tr Hitems Hdrv Hh Hd
                   | fin t todo dp e evs tr Hitems Hdrv Hh Hd];
    cbn [trace seqp]; subst items;
    rewrite <- (gots_ignore_pull tr), Hh, Hd,
      serial_driver_app, serial_handoff_app, <- !app_assoc.
  - rewrite gots_of_serial_handoff.
    split; [apply prefix_app_r|]. split.
    + apply prefix_app.
      destruct (serial_driver_then_pull
                  (fold_left Env.process_item fin (Env.reset (Env.build w)))
                  todo) as [rest ->].
      eapply idle_driver_prefix; exact Hdrv.
    + split; [apply prefix_app_r|].
      intro Hdone. destruct Hsp as [-> | ->]; [|discriminate].
      injection Hdone as ->. cbn. now rewrite !app_nil_r.
  - rewrite flat_map_app, gots_of_serial_handoff.
    cbn [flat_map got_of app]. rewrite app_nil_r.
    split; [apply prefix_app_r|]. split.
    + apply prefix_app.
      destruct (serial_driver_then_pull
                  (fold_left Env.process_item fin (Env.reset (Env.build w)))
                  (t :: todo)) as [rest ->].
      eapply idle_driver_prefix; exact Hdrv.
    + split; [|discriminate].
      apply prefix_app. cbn. now eexists.
  - rewrite flat_map_app, gots_of_serial_handoff. cbn [flat_map got_of app].
    destruct (busy_driver_prefix w fin t dp e evs
                (Done :: serial_driver
                           (Env.process_item
                              (fold_left Env.process_item fin
                                         (Env.reset (Env.build w))) t)
                           todo ++ [Pull]) Hdrv) as [[r1 Hp1] Hg].
    destruct (busy_driver_prefix w fin t dp e evs
                (Done :: serial_handoff
                           (Env.process_item
                              (fold_left Env.process_item fin
                                         (Env.reset (Env.build w))) t)
                           todo) Hdrv) as [[r2 Hp2] _].
    rewrite Hg. split; [|split; [|split; [|discriminate]]].
    + apply prefix_app. now exists todo.
    + apply prefix_app. exists r1. cbn. f_equal. exact Hp1.
    + apply prefix_app. exists r2. cbn. f_equal. exact Hp2.
Qed.

(** One item, start to finish, under the schedule that lets the
    sequence go first. *)
Lemma steps_one_item (t : GCDTransaction) (todo : list GCDTransaction)
      (e : Env.GCDEnv W) (tr : list event) :
  exists tr',
    steps (mkCfg (SeqProduce (t :: todo)) (mkSeqr None false) DrvIdle e tr)
          (mkCfg (SeqProduce todo) (mkSeqr None false) DrvIdle
                 (Env.process_item e t) tr').
Proof.
  rewrite process_item_stages.
  pose proof (steps_refl
                (mkCfg (SeqProduce (t :: todo)) (mkSeqr None false) DrvIdle e tr))
    as S0.
  pose proof (steps_snoc _ _ _ S0
                (step_submit t todo (mkSeqr None false) DrvIdle e tr eq_refl))
    as S1. cbn [outstanding] in S1.
  pose proof (steps_snoc _ _ _ S1 (step_pull _ _ _ _)) as S2.
  pose proof (steps_snoc _ _ _ S2 (step_get _ _ _ _ _)) as S3.
  pose proof (steps_snoc _ _ _ S3 (step_drive _ _ _ _ _)) as S4.
  pose proof (steps_snoc _ _ _ S4 (step_publish _ _ _ _ _)) as S5.
  pose proof (steps_snoc _ _ _ S5 (step_done _ _ _ _)) as S6.
  cbn [slot] in S6.
  pose proof (steps_snoc _ _ _ S6 (step_resume _ _ _ _)) as S7.
  eexists. exact S7.
Qed.

Lemma steps_all_items (items : list GCDTransaction) :
  forall (e : Env.GCDEnv W) (tr : list event),
  exists tr',
    steps (mkCfg (SeqProduce items) (mkSeqr None false) DrvIdle e tr)
          (mkCfg (SeqProduce []) (mkSeqr None false) DrvIdle
                 (fold_left Env.process_item items e) tr').
Proof.
  induction items as [|t items IH]; intros e tr.
  - exists tr. apply steps_refl.
  - destruct (steps_one_item t items e tr) as [tr1 H1].
    destruct (IH (Env.process_item e t) tr1) as [tr2 H2].
    exists tr2. eapply steps_trans; [exact H1 | exact H2].
Qed.

(** C2. Under every schedule of the sequence and the driver, at every
    point of the run: the items [get_next_item] has returned so far are
    an initial segment of the items the sequence generates, in the same
    order, and all of them once the sequence body has returned (none is
    dropped); the driver's events are an initial segment of
    [Pull, Got t, Publish t', Done] repeated item by item, so
    [item_done] for one item comes strictly before [get_next_item]
    returns the next, and the pull for the next item begins only after
    the publish and the done-signal of the one before (every take but
    the first comes right after publish, done and pull); hand-over,
    take, publish and done follow each other item by item.  Some schedule
    takes the run to the end of the sequence, with the driver having
    handled every item. *)
Theorem rendezvous_is_ordered_and_serial :
  forall (w : W) (items : list GCDTransaction),
    (forall c : config W,
        steps (initial w items) c ->
        prefix (flat_map got_of (trace c)) items
        /\ prefix (filter is_driver_event (trace c))
                  (serial_driver (Env.reset (Env.build w)) items ++ [Pull])
        /\ prefix (filter is_handoff_event (trace c))
                  (serial_handoff (Env.reset (Env.build w)) items)
        /\ (forall pre t post,
               filter is_driver_event (trace c) = pre ++ Got t :: post ->
               pre = [Pull]
               \/ exists pre' t', pre = pre' ++ [Publish t'; Done; Pull])
        /\ (seqp c = SeqProduce [] ->
            flat_map got_of (trace c) = items
            /\ filter is_handoff_event (trace c)
               = serial_handoff (Env.reset (Env.build w)) items))
    /\ (exists c : config W,
           steps (initial w items) c
           /\ seqp c = SeqProduce []
           /\ env c = Env.run_phase (Env.build w) items).
Proof.
  intros w items. split.
  - intros c Hs.
    destruct (inv_trace w items c (inv_reachable w items c Hs))
      as (Hgot & Hdrv & Hhand & Hend).
    split; [exact Hgot|]. split; [exact Hdrv|]. split; [exact Hhand|].
    split; [|exact Hend].
    intros pre t post E. destruct Hdrv as [r Hr]. rewrite E in Hr.
    rewrite <- app_assoc in Hr. cbn [app] in Hr.
    exact (serial_driver_before_got items _ pre (post ++ r) t Hr).
  - destruct (steps_all_items items (Env.reset (Env.build w)) []) as [tr Hs].
    exists (mkCfg (SeqProduce []) (mkSeqr None false) DrvIdle
                  (fold_left Env.process_item items (Env.reset (Env.build w)))
                  tr).
    split; [|split; reflexivity].
    eapply steps_trans; [|exact Hs].
    eapply steps_snoc; [apply steps_refl|]. apply step_reset.
Qed.

End RendezvousFacts.

Lemma rendezvous_is_ordered_and_serial_witness :
  exists c : Rendezvous.config Stubs.subgcd,
    Rendezvous.steps (Rendezvous.initial Stubs.subgcd_start five_items) c
    /\ Rendezvous.seqp c = Rendezvous.SeqProduce []
    /\ flat_map Rendezvous.got_of (Rendezvous.trace c) = five_items.
Proof.
  destruct (rendezvous_is_ordered_and_serial Stubs.subgcd_start five_items)
    as [Hsafe (c & Hs & Hend & _)].
  exists c. split; [exact Hs|]. split; [exact Hend|].
  destruct (Hsafe c Hs) as (_ & _ & _ & _ & Hfinal).
  exact (proj1 (Hfinal Hend)).
Defined.

(** * Further properties *)

(** ** Equality of transactions *)

Lemma txn_eq_fields (a b : GCDTransaction) :
  txn_eq a b = true
  <-> value1 a = value1 b /\ value2 a = value2 b
      /\ outputGCD a = outputGCD b /\ outputValid a = outputValid b.
Proof.
  unfold txn_eq. rewrite !andb_true_iff, !Z.eqb_eq, Bool.eqb_true_iff.
  tauto.
Qed.

(** X1. [__eq__] is an equivalence on transactions.  It holds exactly
    when the two operands and the two outputs agree: the name and the
    load flag play no part, so a transaction stays equal to itself when
    either is changed. *)
Theorem txn_eq_is_an_equivalence_on_four_fields :
  (forall a, txn_eq a a = true)
  /\ (forall a b, txn_eq a b = txn_eq b a)
  /\ (forall a b c, txn_eq a b = true -> txn_eq b c = true ->
                    txn_eq a c = true)
  /\ (forall a b,
         txn_eq a b = true
         <-> value1 a = value1 b /\ value2 a = value2 b
             /\ outputGCD a = outputGCD b /\ outputValid a = outputValid b)
  /\ (forall a nm flag,
         txn_eq a (mkTxn nm (value1 a) (value2 a) flag
                         (outputGCD a) (outputValid a)) = true).
Proof.
  split; [|split; [|split; [|split]]].
  - intro a. apply txn_eq_fields. repeat split.
  - intros a b. apply eq_true_iff_eq. rewrite !txn_eq_fields.
    split; intros (-> & -> & -> & ->); repeat split.
  - intros a b c Hab Hbc. apply txn_eq_fields in Hab, Hbc.
    apply txn_eq_fields.
    destruct Hab as (-> & -> & -> & ->). exact Hbc.
  - apply txn_eq_fields.
  - intros a nm flag. apply txn_eq_fields. repeat split.
Qed.

Lemma txn_eq_is_an_equivalence_on_four_fields_witness :
  txn_eq (mkTxn "driver" 48 18 true 6 true)
         (mkTxn "monitored_txn" 48 18 false 6 true) = true.
Proof.
  destruct txn_eq_is_an_equivalence_on_four_fields as (_ & _ & Htrans & _).
  apply (Htrans _ (mkTxn "seq" 48 18 true 6 true) _); reflexivity.
Defined.

(** X2. Transactions that [__eq__] identifies are the same to both
    subscribers: the scoreboard moves the same counter for either, and
    the coverage collector the same bins. *)
Theorem subscribers_cannot_tell_equal_transactions_apart :
  forall a b,
    txn_eq a b = true ->
    (forall sb, same_verdicts (Scoreboard.write sb a) (Scoreboard.write sb b))
    /\ (forall c, same_bins (Coverage.write c a) (Coverage.write c b)).
Proof.
  intros a b Hab. apply txn_eq_fields in Hab.
  destruct Hab as (H1 & H2 & Hg & Hv). split.
  - intro sb. unfold same_verdicts, Scoreboard.write,
      Scoreboard.check_transaction.
    rewrite H1, H2, Hg, Hv.
    destruct (_ && _); split; reflexivity.
  - intro c. unfold same_bins.
    destruct (write_fields c a) as (Ta & Za & Oa & Ea & Ca & Ma & Pa).
    destruct (write_fields c b) as (Tb & Zb & Ob & Eb & Cb & Mb & Pb).
    cbv zeta beta in *.
    rewrite Ta, Za, Oa, Ea, Ca, Ma, Pa, Tb, Zb, Ob, Eb, Cb, Mb, Pb.
    rewrite H1, H2, Hg. repeat split.
Qed.

Lemma subscribers_cannot_tell_equal_transactions_apart_witness :
  same_verdicts
    (Scoreboard.write Scoreboard.init (mkTxn "driver" 48 18 true 6 true))
    (Scoreboard.write Scoreboard.init
                      (mkTxn "monitored_txn" 48 18 false 6 true)).
Proof.
  exact (proj1 (subscribers_cannot_tell_equal_transactions_apart
                  (mkTxn "driver" 48 18 true 6 true)
                  (mkTxn "monitored_txn" 48 18 false 6 true) eq_refl)
               Scoreboard.init).
Defined.

(** ** Scoreboard, further *)

Section ScoreboardMore.
Import Scoreboard.

Lemma check_transaction_logs (sb : GCDScoreboard) (txn : GCDTransaction) :
  (passed (check_transaction sb txn) = passed sb + 1
   /\ failed (check_transaction sb txn) = failed sb
   /\ exists m, sb_logger (check_transaction sb txn)
                = sb_logger sb ++ [mkLog DEBUG m])
  \/ (passed (check_transaction sb txn) = passed sb
      /\ failed (check_transaction sb txn) = failed sb + 1
      /\ exists m, sb_logger (check_transaction sb txn)
                   = sb_logger sb ++ [mkLog ERROR m]).
Proof.
  unfold check_transaction. destruct (_ && _); cbn; [left|right];
    repeat split; eexists; reflexivity.
Qed.

Lemma count_level_snoc (l : level) (lg : logger) (r : log_record) :
  count_level l (lg ++ [r])
  = (count_level l lg + if is_level l r then 1 else 0)%nat.
Proof.
  unfold count_level. rewrite filter_app, length_app. cbn.
  destruct (is_level l r); reflexivity.
Qed.

Lemma receive_all_logs (txns : list GCDTransaction) :
  forall sb,
    passed (receive_all sb txns) - passed sb
    = Z.of_nat (count_level DEBUG (sb_logger (receive_all sb txns)))
      - Z.of_nat (count_level DEBUG (sb_logger sb))
    /\ failed (receive_all sb txns) - failed sb
       = Z.of_nat (count_level ERROR (sb_logger (receive_all sb txns)))
         - Z.of_nat (count_level ERROR (sb_logger sb))
    /\ count_level WARNING (sb_logger (receive_all sb txns))
       = count_level WARNING (sb_logger sb)
    /\ count_level INFO (sb_logger (receive_all sb txns))
       = count_level INFO (sb_logger sb)
    /\ passed sb <= passed (receive_all sb txns)
    /\ failed sb <= failed (receive_all sb txns).
Proof.
  induction txns as [|t txns IH]; intro sb.
  - cbn. repeat split; lia.
  - change (receive_all sb (t :: txns))
      with (receive_all (check_transaction sb t) txns).
    destruct (IH (check_transaction sb t)) as (Hp & Hf & Hw & Hi & Mp & Mf).
    destruct (check_transaction_logs sb t)
      as [(Ep & Ef & m & El)|(Ep & Ef & m & El)];
      rewrite Ep, Ef, El, !count_level_snoc in *; cbn in *;
      repeat split; lia.
Qed.


(** What a logger holds is, level by level, the calls it lets through. *)
Lemma let_through_by_level (keeps : level -> bool) (lg : logger) :
  List.length (let_through keeps lg)
  = ((if keeps DEBUG then count_level DEBUG lg else 0)
     + (if keeps INFO then count_level INFO lg else 0)
     + (if keeps WARNING then count_level WARNING lg else 0)
     + (if keeps ERROR then count_level ERROR lg else 0))%nat.
Proof.
  unfold let_through, count_level.
  induction lg as [|[l m] lg IH]; cbn [filter lvl].
  - destruct (keeps DEBUG), (keeps INFO), (keeps WARNING), (keeps ERROR);
      reflexivity.
  - destruct l; cbn [is_level lvl];
      destruct (keeps DEBUG), (keeps INFO), (keeps WARNING), (keeps ERROR);
      cbn [List.length]; lia.
Qed.

(** X3. The scoreboard's logging calls keep step with its counters.
    Starting from a new scoreboard and after any transactions it has
    made one [error] call for each failure, one [debug] call for each
    pass and no other call.  So whatever levels the logger lets
    through, its log holds [failed] records if ERROR is among them plus
    [passed] records if DEBUG is: with DEBUG filtered out, exactly the
    failures; with ERROR filtered out as well, nothing.  Neither counter
    is negative, and writing more transactions never lowers either. *)
Theorem scoreboard_log_matches_counters :
  (forall txns (keeps : level -> bool),
      let sb := receive_all init txns in
      Z.of_nat (List.length (let_through keeps (sb_logger sb)))
      = (if keeps ERROR then failed sb else 0)
        + (if keeps DEBUG then passed sb else 0))
  /\ (forall txns,
         let sb := receive_all init txns in
         0 <= passed sb /\ 0 <= failed sb)
  /\ (forall sb txns,
         passed sb <= passed (receive_all sb txns)
         /\ failed sb <= failed (receive_all sb txns)).
Proof.
  split; [|split].
  - intros txns keeps sb. subst sb.
    destruct (receive_all_logs txns init) as (Hp & Hf & Hw & Hi & _).
    cbn in Hp, Hf, Hw, Hi.
    rewrite let_through_by_level, Hw, Hi.
    destruct (keeps DEBUG), (keeps INFO), (keeps WARNING), (keeps ERROR);
      lia.
  - intros txns sb. subst sb.
    destruct (receive_all_logs txns init) as (_ & _ & _ & _ & Mp & Mf).
    cbn in Mp, Mf. split; assumption.
  - intros sb txns.
    destruct (receive_all_logs txns sb) as (_ & _ & _ & _ & Mp & Mf).
    split; assumption.
Qed.

End ScoreboardMore.

(** ** Order of arrival *)

Section FoldPermutation.
Variables (S A : Type) (R : S -> S -> Prop) (f : S -> A -> S).
Hypothesis R_refl : forall s, R s s.
Hypothesis R_trans : forall s1 s2 s3, R s1 s2 -> R s2 s3 -> R s1 s3.
Hypothesis f_congr : forall s s' a, R s s' -> R (f s a) (f s' a).
Hypothesis f_swap : forall s a b, R (f (f s a) b) (f (f s b) a).

Lemma fold_left_congr (l : list A) :
  forall s s', R s s' -> R (fold_left f l s) (fold_left f l s').
Proof.
  induction l as [|a l IH]; intros s s' Hs; [exact Hs|].
  cbn. apply IH, f_congr, Hs.
Qed.

Lemma fold_left_permutation (l l' : list A) :
  Permutation l l' ->
  forall s s', R s s' -> R (fold_left f l s) (fold_left f l' s').
Proof.
  induction 1 as [|a l l' _ IH|a b l|l1 l2 l3 _ IH1 _ IH2]; intros s s' Hs.
  - exact Hs.
  - cbn. apply IH, f_congr, Hs.
  - cbn. apply fold_left_congr.
    eapply R_trans; [apply f_swap|]. apply f_congr, f_congr, Hs.
  - eapply R_trans; [apply IH1, Hs|]. apply IH2, R_refl.
Qed.

End FoldPermutation.

Lemma scoreboard_write_counters (sb : Scoreboard.GCDScoreboard)
      (t : GCDTransaction) :
  let hit := (outputGCD t =? Z.gcd (value1 t) (value2 t)) && outputValid t in
  Scoreboard.passed (Scoreboard.write sb t)
  = Scoreboard.passed sb + (if hit then 1 else 0)
  /\ Scoreboard.failed (Scoreboard.write sb t)
     = Scoreboard.failed sb + (if hit then 0 else 1).
Proof.
  intro hit. subst hit. unfold Scoreboard.write, Scoreboard.check_transaction.
  destruct (_ && _); cbn; split; lia.
Qed.

(** X4. The final counters do not depend on the order in which the
    transactions arrive: two runs that deliver the same transactions in
    different orders leave the scoreboard with the same [passed] and
    [failed] and the coverage collector with the same total and bins. *)
Theorem counters_do_not_depend_on_arrival_order :
  forall txns txns',
    Permutation txns txns' ->
    (forall sb,
        same_verdicts (Scoreboard.receive_all sb txns)
                      (Scoreboard.receive_all sb txns'))
    /\ (forall c,
           same_bins (fold_left Coverage.write txns c)
                     (fold_left Coverage.write txns' c)).
Proof.
  intros txns txns' Hperm. split.
  - intro sb. unfold Scoreboard.receive_all.
    apply (fold_left_permutation _ _ same_verdicts Scoreboard.write);
      try exact Hperm; unfold same_verdicts.
    + intro s. split; reflexivity.
    + intros s1 s2 s3 [? ?] [? ?]. split; congruence.
    + intros s s' a [Hp Hf].
      destruct (scoreboard_write_counters s a) as [-> ->].
      destruct (scoreboard_write_counters s' a) as [-> ->].
      rewrite Hp, Hf. split; reflexivity.
    + intros s a b.
      destruct (scoreboard_write_counters (Scoreboard.write s a) b)
        as [-> ->].
      destruct (scoreboard_write_counters (Scoreboard.write s b) a)
        as [-> ->].
      destruct (scoreboard_write_counters s a) as [-> ->].
      destruct (scoreboard_write_counters s b) as [-> ->].
      split; lia.
    + split; reflexivity.
  - intro c.
    apply (fold_left_permutation _ _ same_bins Coverage.write);
      try exact Hperm; unfold same_bins.
    + intro s. repeat split.
    + intros s1 s2 s3 (?&?&?&?&?&?&?) (?&?&?&?&?&?&?).
      repeat split; congruence.
    + intros s s' a (Ht & Hz & Ho & He & Hc & Hm & Hp).
      destruct (write_fields s a) as (-> & -> & -> & -> & -> & -> & ->).
      destruct (write_fields s' a) as (-> & -> & -> & -> & -> & -> & ->).
      rewrite Ht, Hz, Ho, He, Hc, Hm, Hp. repeat split.
    + intros s a b.
      destruct (write_fields (Coverage.write s a) b)
        as (-> & -> & -> & -> & -> & -> & ->).
      destruct (write_fields (Coverage.write s b) a)
        as (-> & -> & -> & -> & -> & -> & ->).
      destruct (write_fields s a) as (-> & -> & -> & -> & -> & -> & ->).
      destruct (write_fields s b) as (-> & -> & -> & -> & -> & -> & ->).
      repeat split;
        repeat match goal with |- context [if ?b then _ else _] =>
                                 destruct b end; lia.
    + repeat split.
Qed.

Lemma counters_do_not_depend_on_arrival_order_witness :
  same_verdicts (Scoreboard.receive_all Scoreboard.init five_items)
                (Scoreboard.receive_all Scoreboard.init (rev five_items)).
Proof.
  exact (proj1 (counters_do_not_depend_on_arrival_order
                  five_items (rev five_items) (Permutation_rev five_items))
               Scoreboard.init).
Defined.

(** ** End of run *)

(** X5. [report_phase] of the scoreboard raises exactly when something
    was checked and something failed; either way it leaves both counters
    as they were.  A scoreboard that has checked nothing only logs one
    warning: a run without transactions does not fail. *)
Theorem report_without_transactions_only_warns :
  (forall sb,
      raised (Scoreboard.report_phase sb) = true
      <-> Scoreboard.passed sb + Scoreboard.failed sb > 0
          /\ Scoreboard.failed sb > 0)
  /\ (forall sb,
         same_verdicts (outcome_state (Scoreboard.report_phase sb)) sb)
  /\ (forall sb,
         Scoreboard.passed sb + Scoreboard.failed sb <= 0 ->
         Scoreboard.report_phase sb
         = Returned (Scoreboard.with_log WARNING MsgNoTransactions sb))
  /\ (forall sb,
         Scoreboard.passed sb + Scoreboard.failed sb > 0 ->
         count_level INFO
           (Scoreboard.sb_logger (outcome_state (Scoreboard.report_phase sb)))
         = (count_level INFO (Scoreboard.sb_logger sb) + 8)%nat)
  /\ (forall (W : Type) (H : DutHandle W) (w : W),
         raised (Env.run_test w []) = false).
Proof.
  split; [|split; [|split; [|split]]].
  - intro sb. unfold Scoreboard.report_phase.
    cbn [Scoreboard.with_log Scoreboard.failed Scoreboard.passed].
    destruct (Scoreboard.passed sb + Scoreboard.failed sb >? 0) eqn:Et;
      [destruct (Scoreboard.failed sb >? 0) eqn:Ef|]; cbn;
      rewrite ?Z.gtb_ltb in *;
      try apply Z.ltb_lt in Et; try apply Z.ltb_ge in Et;
      try apply Z.ltb_lt in Ef; try apply Z.ltb_ge in Ef;
      split; intro Hx; try discriminate; try reflexivity; try lia.
  - intro sb. unfold Scoreboard.report_phase, same_verdicts.
    cbn [Scoreboard.with_log Scoreboard.failed Scoreboard.passed].
    destruct (_ >? 0); [destruct (_ >? 0)|]; cbn; split; reflexivity.
  - intros sb Ht. unfold Scoreboard.report_phase.
    replace (Scoreboard.passed sb + Scoreboard.failed sb >? 0) with false;
      [reflexivity|].
    symmetry. rewrite Z.gtb_ltb. apply Z.ltb_ge. lia.
  - intros sb Ht. unfold Scoreboard.report_phase.
    replace (Scoreboard.passed sb + Scoreboard.failed sb >? 0) with true
      by (symmetry; rewrite Z.gtb_ltb; apply Z.ltb_lt; lia).
    cbn [Scoreboard.with_log Scoreboard.failed Scoreboard.passed].
    destruct (_ >? 0);
      cbn [outcome_state Scoreboard.sb_logger Scoreboard.with_log];
      unfold log; rewrite !count_level_snoc; cbn; lia.
  - intros W H w. reflexivity.
Qed.

Lemma report_without_transactions_only_warns_witness :
  Scoreboard.report_phase Scoreboard.init
  = Returned (Scoreboard.mkSb 0 0 [mkLog WARNING MsgNoTransactions]).
Proof.
  destruct report_without_transactions_only_warns as (_ & _ & Hwarn & _).
  rewrite (Hwarn Scoreboard.init); [reflexivity|cbn; lia].
Defined.

(** ** Coverage, further *)

Lemma write_keeps_bins_within_total (c : Coverage.GCDCoverage)
      (t : GCDTransaction) :
  bins_within_total c -> bins_within_total (Coverage.write c t).
Proof.
  unfold bins_within_total.
  intros (Hz & Ho & He & Hc & Hm & Hp).
  destruct (write_fields c t) as (-> & -> & -> & -> & -> & -> & ->).
  repeat split;
    repeat match goal with |- context [if ?b then _ else _] =>
                             destruct b end; lia.
Qed.

(** X6. After any transactions, starting from a new collector, the
    total is the number of transactions received and every bin lies
    between 0 and the total; a further transaction never lowers a bin. *)
Theorem coverage_bins_stay_within_total :
  (forall txns,
      let c := fold_left Coverage.write txns Coverage.init in
      Coverage.total_transactions c = Z.of_nat (List.length txns)
      /\ bins_within_total c)
  /\ (forall c t,
         Coverage.zero_cases c <= Coverage.zero_cases (Coverage.write c t)
         /\ Coverage.one_cases c <= Coverage.one_cases (Coverage.write c t)
         /\ Coverage.equal_cases c <= Coverage.equal_cases (Coverage.write c t)
         /\ Coverage.coprime_cases c
            <= Coverage.coprime_cases (Coverage.write c t)
         /\ Coverage.max_value_cases c
            <= Coverage.max_value_cases (Coverage.write c t)
         /\ Coverage.power_of_two_cases c
            <= Coverage.power_of_two_cases (Coverage.write c t)).
Proof.
  split.
  - intro txns.
    assert (Hgen : forall c,
               Coverage.total_transactions (fold_left Coverage.write txns c)
               = Coverage.total_transactions c + Z.of_nat (List.length txns)
               /\ (bins_within_total c ->
                   bins_within_total (fold_left Coverage.write txns c))).
    { induction txns as [|t txns IH]; intro c.
      - cbn. split; [lia|auto].
      - cbn [fold_left List.length]. destruct (IH (Coverage.write c t)) as [Ht Hb].
        destruct (write_fields c t) as (Hw & _).
        split; [rewrite Ht, Hw; lia|].
        intro Hc. apply Hb, write_keeps_bins_within_total, Hc. }
    destruct (Hgen Coverage.init) as [Ht Hb].
    split; [exact Ht|]. apply Hb. unfold bins_within_total. cbn. lia.
  - intros c t.
    destruct (write_fields c t) as (_ & -> & -> & -> & -> & -> & ->).
    repeat split;
      match goal with |- context [if ?b then _ else _] => destruct b end; lia.
Qed.

(** ** Driver, further *)

Section DriverMore.
Context {W : Type} `{DutHandle W}.

(** The world at the load edge of [drive_transaction], and the world
    right after the strobe is taken back. *)
Lemma load_and_drain_cases (w : W) (txn : GCDTransaction) :
  let w0 :=
    write_loadingValues 0
      (rising_edge
         (write_value2 (value2 txn)
            (write_value1 (value1 txn) (write_loadingValues 1 w)))) in
  exists n : nat,
    (n <= 10)%nat
    /\ Driver.load_and_drain w txn = edges n w0
    /\ (forall j, (j < n)%nat -> read_outputValid (edges j w0) = 1)
    /\ ((n < 10)%nat -> read_outputValid (edges n w0) <> 1).
Proof.
  intro w0. unfold Driver.load_and_drain. fold w0.
  destruct (poll_from_zero (fun v => v =? 1) Driver.max_wait w0)
    as (n & Hp & Hle & Hpre & Hex); [unfold Driver.max_wait; lia|].
  unfold Driver.max_wait in *.
  exists n. split; [lia|]. split; [now rewrite Hp|]. split.
  - intros j Hj. apply Z.eqb_eq, Hpre, Hj.
  - intro Hn. apply Z.eqb_neq, Hex. lia.
Qed.

(** The two ways [drive_transaction] can end: a capture at the first
    sample [n < 1000] where the flag is not 0, or a timeout. *)
Lemma drive_transaction_outcomes
      (d : Driver.GCDDriver W) (txn : GCDTransaction) :
  let w1 := Driver.load_and_drain (Driver.dut d) txn in
  (exists n : nat,
      (n < 1000)%nat
      /\ (forall j, (j < n)%nat -> read_outputValid (edges j w1) = 0)
      /\ read_outputValid (edges n w1) <> 0
      /\ Driver.drive_transaction d txn
         = (Driver.mkDrv (edges n w1)
              (log INFO
                 (MsgDriverComplete (Z.of_nat n)
                    (set_outputValid true
                       (set_outputGCD (read_outputGCD (edges n w1)) txn)))
                 (Driver.drv_logger d)),
            set_outputValid true
              (set_outputGCD (read_outputGCD (edges n w1)) txn)))
  \/ ((forall j, (j < 1000)%nat -> read_outputValid (edges j w1) = 0)
      /\ Driver.drive_transaction d txn
         = (Driver.mkDrv (edges 1000 w1)
              (log ERROR (MsgDriverTimeout txn) (Driver.drv_logger d)),
            txn)).
Proof.
  intro w1.
  destruct (wait_phase_cases w1) as [(n & Hn & Hlow & Hhigh & E)|[Hlow E]].
  - left. exists n. split; [exact Hn|]. split; [exact Hlow|].
    split; [exact Hhigh|].
    destruct (drive_transaction_cases d txn) as [[Hc _]|[_ E']];
      fold w1 in Hc || fold w1 in E'.
    + rewrite E in Hc. cbn in Hc. unfold Driver.max_cycles in Hc. lia.
    + cbv zeta in E'. rewrite E'. rewrite E. cbn [fst snd].
      apply Z.eqb_neq in Hhigh. rewrite Hhigh. reflexivity.
  - right. split; [exact Hlow|].
    destruct (drive_transaction_cases d txn) as [[_ E']|[Hc _]];
      fold w1 in E' || fold w1 in Hc.
    + rewrite E', E. reflexivity.
    + rewrite E in Hc. cbn in Hc. unfold Driver.max_cycles in Hc. lia.
Qed.

(** Where [drive_transaction] leaves the design: [n] edges of drain and
    [m] edges of waiting after the strobe is taken back. *)
Lemma drive_transaction_is_bounded_cases
      (d : Driver.GCDDriver W) (txn : GCDTransaction) :
  exists n m : nat,
    Driver.dut (fst (Driver.drive_transaction d txn))
    = edges m
        (edges n
           (write_loadingValues 0
              (rising_edge
                 (write_value2 (value2 txn)
                    (write_value1 (value1 txn)
                       (write_loadingValues 1 (Driver.dut d))))))).
Proof.
  destruct (load_and_drain_cases (Driver.dut d) txn) as (n & _ & Hd & _).
  cbv zeta in Hd.
  destruct (drive_transaction_outcomes d txn) as [(m & _ & _ & _ & E)|(_ & E)];
    rewrite Hd in E; rewrite E; eexists n, _; reflexivity.
Qed.

(** X7. [drive_transaction] always comes back, after at least 1 and at
    most 1011 rising edges: one for the load, then [n <= 10] while the
    flag still reads 1, then [m <= 1000] while it reads 0.  The drain
    stops early only on a flag that is not 1, and running into its bound
    is not an error. *)
Theorem drive_transaction_is_bounded :
  forall (d : Driver.GCDDriver W) (txn : GCDTransaction),
    let w0 :=
      write_loadingValues 0
        (rising_edge
           (write_value2 (value2 txn)
              (write_value1 (value1 txn)
                 (write_loadingValues 1 (Driver.dut d))))) in
    exists n m : nat,
      (n <= 10)%nat /\ (m <= 1000)%nat
      /\ Driver.dut (fst (Driver.drive_transaction d txn))
         = edges m (edges n w0)
      /\ (forall j, (j < n)%nat -> read_outputValid (edges j w0) = 1)
      /\ ((n < 10)%nat -> read_outputValid (edges n w0) <> 1)
      /\ (forall j, (j < m)%nat ->
                    read_outputValid (edges j (edges n w0)) = 0)
      /\ count_level ERROR
           (Driver.drv_logger (fst (Driver.drive_transaction d txn)))
         = (count_level ERROR (Driver.drv_logger d)
            + if Nat.eqb m 1000 then 1 else 0)%nat.
Proof.
  intros d txn w0.
  destruct (load_and_drain_cases (Driver.dut d) txn)
    as (n & Hn & Hd & Hhigh & Hstop).
  fold w0 in Hd, Hhigh, Hstop.
  destruct (drive_transaction_outcomes d txn)
    as [(m & Hm & Hlow & _ & E)|(Hlow & E)]; rewrite Hd in *.
  - exists n, m. rewrite E. cbn [fst Driver.dut Driver.drv_logger].
    repeat (split; [first [assumption | reflexivity | lia]|]).
    unfold log. rewrite count_level_snoc. cbn.
    replace (Nat.eqb m 1000) with false
      by (symmetry; apply Nat.eqb_neq; lia). reflexivity.
  - exists n, 1000%nat. rewrite E. cbn [fst Driver.dut Driver.drv_logger].
    repeat (split; [first [assumption | reflexivity | lia]|]).
    unfold log. rewrite count_level_snoc. reflexivity.
Qed.

End DriverMore.

Lemma drive_transaction_is_bounded_witness :
  exists n m : nat,
    (n <= 10)%nat /\ (m <= 1000)%nat
    /\ Driver.dut
         (fst (Driver.drive_transaction
                 (Driver.mkDrv Stubs.subgcd_start [])
                 (set_value2 18 (set_value1 48 (new_txn "t")))))
       = edges m
           (edges n
              (Stubs.mkSub (Stubs.mkPins 0 0 48 18) 48 18)).
Proof.
  destruct (drive_transaction_is_bounded
              (Driver.mkDrv Stubs.subgcd_start [])
              (set_value2 18 (set_value1 48 (new_txn "t"))))
    as (n & m & Hn & Hm & Hd & _).
  exists n, m. split; [exact Hn|]. split; [exact Hm|]. exact Hd.
Defined.

Section DriverOperands.
Context {W : Type} `{DutHandle W}.

Lemma load_and_drain_operands (w : W) (t t' : GCDTransaction) :
  same_operands t t' -> Driver.load_and_drain w t' = Driver.load_and_drain w t.
Proof.
  intros [H1 H2]. unfold Driver.load_and_drain. now rewrite H1, H2.
Qed.

(** X8. What [drive_transaction] does to the design and what it captures
    depend on the item's two operands only.  It asserts the load strobe
    whatever the item's own [loadingValues] says, keeps the item's name,
    operands and load flag, and either leaves both outputs alone or sets
    [outputValid] to true together with [outputGCD]. *)
Theorem driver_looks_at_the_operands_only :
  forall (d : Driver.GCDDriver W) (t t' : GCDTransaction),
    let r := snd (Driver.drive_transaction d t) in
    let r' := snd (Driver.drive_transaction d t') in
    (name r = name t /\ value1 r = value1 t /\ value2 r = value2 t
     /\ loadingValues r = loadingValues t
     /\ (r = t \/ outputValid r = true))
    /\ (same_operands t t' ->
        Driver.dut (fst (Driver.drive_transaction d t'))
        = Driver.dut (fst (Driver.drive_transaction d t))
        /\ ((r = t /\ r' = t')
            \/ (outputValid r = true /\ outputValid r' = true
                /\ outputGCD r' = outputGCD r))).
Proof.
  intros d t t' r r'. subst r r'. split.
  - destruct (drive_transaction_outcomes d t) as [(n & _ & _ & _ & E)|(_ & E)];
      rewrite E; cbn; repeat split; auto.
  - intro Hops.
    pose proof (load_and_drain_operands (Driver.dut d) t t' Hops) as Hw.
    destruct (drive_transaction_outcomes d t)
      as [(n & Hn & Hlow & Hhigh & E)|(Hlow & E)];
      destruct (drive_transaction_outcomes d t')
        as [(n' & Hn' & Hlow' & Hhigh' & E')|(Hlow' & E')];
      rewrite Hw in *; rewrite E, E'; cbn [fst snd Driver.dut].
    + assert (n' = n).
      { destruct (Nat.lt_trichotomy n' n) as [Hlt|[Heq|Hgt]]; [|exact Heq|].
        - exfalso. apply Hhigh'. apply Hlow, Hlt.
        - exfalso. apply Hhigh. apply Hlow', Hgt. }
      subst n'. split; [reflexivity|]. right. cbn. repeat split.
    + exfalso. apply Hhigh, Hlow', Hn.
    + exfalso. apply Hhigh', Hlow, Hn'.
    + split; [reflexivity|]. left. split; reflexivity.
Qed.

(** X9. A flag that stays at 1 does not hold the driver up: once the 10
    edges of the drain are spent the wait loop ends at once, with
    [cycles = 0], and the driver captures whatever output is there and
    reports the transaction complete. *)
Theorem stuck_high_valid_is_captured_after_the_drain :
  forall (d : Driver.GCDDriver W) (txn : GCDTransaction),
    let w0 :=
      write_loadingValues 0
        (rising_edge
           (write_value2 (value2 txn)
              (write_value1 (value1 txn)
                 (write_loadingValues 1 (Driver.dut d))))) in
    (forall j, (j <= 10)%nat -> read_outputValid (edges j w0) = 1) ->
    Driver.drive_transaction d txn
    = (Driver.mkDrv (edges 10 w0)
         (log INFO
            (MsgDriverComplete 0
               (set_outputValid true
                  (set_outputGCD (read_outputGCD (edges 10 w0)) txn)))
            (Driver.drv_logger d)),
       set_outputValid true
         (set_outputGCD (read_outputGCD (edges 10 w0)) txn)).
Proof.
  intros d txn w0 Hhigh.
  assert (Hd : Driver.load_and_drain (Driver.dut d) txn = edges 10 w0).
  { destruct (load_and_drain_cases (Driver.dut d) txn)
      as (n & Hn & Hd & _ & Hstop). fold w0 in Hd, Hstop.
    destruct (Nat.eq_dec n 10) as [->|Hne]; [exact Hd|].
    exfalso. apply Hstop; [lia|]. apply Hhigh. lia. }
  destruct (drive_transaction_outcomes d txn)
    as [(n & Hn & Hlow & Hnz & E)|(Hlow & _)]; rewrite Hd in *.
  - destruct n as [|n].
    + exact E.
    + specialize (Hlow 0%nat ltac:(lia)).
      change (edges 0 (edges 10 w0)) with (edges 10 w0) in Hlow.
      rewrite (Hhigh 10%nat) in Hlow by lia. discriminate.
  - specialize (Hlow 0%nat ltac:(lia)).
      change (edges 0 (edges 10 w0)) with (edges 10 w0) in Hlow.
    rewrite (Hhigh 10%nat) in Hlow by lia. discriminate.
Qed.

End DriverOperands.

Lemma driver_looks_at_the_operands_only_witness :
  Driver.dut
    (fst (Driver.drive_transaction (Driver.mkDrv Stubs.subgcd_start [])
            (mkTxn "b2b_txn_0" 48 18 false 0 false)))
  = Driver.dut
      (fst (Driver.drive_transaction (Driver.mkDrv Stubs.subgcd_start [])
              (mkTxn "directed_txn_2" 48 18 true 0 false))).
Proof.
  refine (proj1 (proj2 (driver_looks_at_the_operands_only
                          (Driver.mkDrv Stubs.subgcd_start [])
                          (mkTxn "directed_txn_2" 48 18 true 0 false)
                          (mkTxn "b2b_txn_0" 48 18 false 0 false)) _)).
  split; reflexivity.
Defined.

Lemma stuck_high_valid_is_captured_after_the_drain_witness :
  snd (Driver.drive_transaction
         (Driver.mkDrv (Stubs.latency_start 0 7) [])
         (set_value2 18 (set_value1 48 (new_txn "t"))))
  = mkTxn "t" 48 18 false 7 true.
Proof.
  rewrite (stuck_high_valid_is_captured_after_the_drain
             (Driver.mkDrv (Stubs.latency_start 0 7) [])
             (set_value2 18 (set_value1 48 (new_txn "t")))).
  - vm_compute. reflexivity.
  - intros j Hj. apply Z.eqb_eq.
    apply (forallb_seq_lt
             (fun j =>
                read_outputValid
                  (edges j
                     (write_loadingValues 0
                        (rising_edge
                           (write_value2 18
                              (write_value1 48
                                 (write_loadingValues 1
                                    (Stubs.latency_start 0 7))))))) =? 1)
             11); [vm_compute; reflexivity|lia].
Defined.

(** ** The load strobe *)

Section LoadStrobe.
Context {W : Type} `{DutPinsOk W}.

Lemma edges_keep_pins (n : nat) :
  forall w : W,
    read_loadingValues (edges n w) = read_loadingValues w
    /\ read_value1 (edges n w) = read_value1 w
    /\ read_value2 (edges n w) = read_value2 w.
Proof.
  induction n as [|n IH]; intro w; [repeat split|].
  cbn [edges]. destruct (IH (rising_edge w)) as (-> & -> & ->).
  rewrite loadingValues_edge, value1_edge, value2_edge. repeat split.
Qed.

(** X10. On a simulator that keeps driven inputs, the load strobe is a
    pulse of one edge per transaction.  At the first edge of
    [drive_transaction] the strobe reads 1 and the two input fields read
    the item's operands; at every later edge up to the return the strobe
    reads 0 and the fields still read the operands.  After [reset_dut]
    the strobe and both fields read 0. *)
Theorem load_strobe_is_a_one_edge_pulse :
  forall (d : Driver.GCDDriver W) (txn : GCDTransaction),
    let wl :=
      rising_edge
        (write_value2 (value2 txn)
           (write_value1 (value1 txn)
              (write_loadingValues 1 (Driver.dut d)))) in
    (read_loadingValues wl = 1
     /\ read_value1 wl = value1 txn /\ read_value2 wl = value2 txn)
    /\ (forall k,
           read_loadingValues (edges k (write_loadingValues 0 wl)) = 0
           /\ read_value1 (edges k (write_loadingValues 0 wl)) = value1 txn
           /\ read_value2 (edges k (write_loadingValues 0 wl)) = value2 txn)
    /\ (exists k,
           Driver.dut (fst (Driver.drive_transaction d txn))
           = edges k (write_loadingValues 0 wl))
    /\ (read_loadingValues (Driver.dut (Driver.reset_dut d)) = 0
        /\ read_value1 (Driver.dut (Driver.reset_dut d)) = 0
        /\ read_value2 (Driver.dut (Driver.reset_dut d)) = 0).
Proof.
  intros d txn wl.
  assert (Hl : read_loadingValues wl = 1
               /\ read_value1 wl = value1 txn /\ read_value2 wl = value2 txn).
  { subst wl.
    rewrite loadingValues_edge, loadingValues_value2, loadingValues_value1,
      loadingValues_written.
    rewrite value1_edge, value1_value2, value1_written.
    rewrite value2_edge, value2_written. repeat split. }
  split; [exact Hl|]. destruct Hl as (_ & H1 & H2).
  split; [|split].
  - intro k. destruct (edges_keep_pins k (write_loadingValues 0 wl))
      as (-> & -> & ->).
    rewrite loadingValues_written, value1_loadingValues, value2_loadingValues.
    repeat split; assumption.
  - destruct (drive_transaction_is_bounded_cases d txn) as (n & m & E).
    exists (n + m)%nat. rewrite edges_add. exact E.
  - unfold Driver.reset_dut, Driver.with_dut, Driver.with_log.
    cbn [Driver.dut].
    rewrite loadingValues_edge, loadingValues_reset.
    rewrite value1_edge, value1_reset, value2_edge, value2_reset.
    match goal with
    | |- context [edges 5 ?w] =>
        destruct (edges_keep_pins 5 w) as (-> & -> & ->)
    end.
    rewrite loadingValues_value2, loadingValues_value1, loadingValues_written.
    rewrite value1_value2, value1_written, value2_written. repeat split.
Qed.

End LoadStrobe.

#[global] Instance subgcd_pins_ok : DutPinsOk Stubs.subgcd.
Proof.
  constructor; intros; try reflexivity;
    destruct w as [p x y]; cbn; unfold Stubs.subgcd_edge; cbn;
    destruct (Stubs.p_loadingValues p =? 1); try reflexivity;
    destruct (x >? y); reflexivity.
Qed.

Lemma load_strobe_is_a_one_edge_pulse_witness :
  read_loadingValues
    (rising_edge
       (write_value2 18
          (write_value1 48 (write_loadingValues 1 Stubs.subgcd_start))))
  = 1
  /\ read_loadingValues
       (Driver.dut (Driver.reset_dut (Driver.mkDrv Stubs.subgcd_start [])))
     = 0.
Proof.
  destruct (@load_strobe_is_a_one_edge_pulse
              Stubs.subgcd _ subgcd_pins_ok
              (Driver.mkDrv Stubs.subgcd_start [])
              (set_value2 18 (set_value1 48 (new_txn "t"))))
    as ((Hl & _) & _ & _ & (Hr & _)).
  split; [exact Hl|exact Hr].
Defined.

(** ** From the design's answer to the scoreboard's verdict *)

Section Verdicts.
Context {W : Type} `{DutHandle W}.

Lemma process_item_outcomes (e : Env.GCDEnv W) (txn : GCDTransaction) :
  let w1 := Driver.load_and_drain (Driver.dut (Env.driver e)) txn in
  let e' := Env.process_item e txn in
  (exists n : nat,
      (n < 1000)%nat
      /\ (forall j, (j < n)%nat -> read_outputValid (edges j w1) = 0)
      /\ read_outputValid (edges n w1) <> 0
      /\ Env.scoreboard e'
         = Scoreboard.write (Env.scoreboard e)
             (set_outputValid true
                (set_outputGCD (read_outputGCD (edges n w1)) txn))
      /\ count_level ERROR (Driver.drv_logger (Env.driver e'))
         = count_level ERROR (Driver.drv_logger (Env.driver e)))
  \/ ((forall j, (j < 1000)%nat -> read_outputValid (edges j w1) = 0)
      /\ Env.scoreboard e' = Scoreboard.write (Env.scoreboard e) txn
      /\ count_level ERROR (Driver.drv_logger (Env.driver e'))
         = S (count_level ERROR (Driver.drv_logger (Env.driver e)))).
Proof.
  intros w1 e'. subst e'.
  unfold Env.process_item, Env.drive.
  destruct (drive_transaction_outcomes (Env.driver (Env.receive e txn)) txn)
    as [(n & Hn & Hlow & Hhigh & E)|(Hlow & E)];
    cbn [Env.receive Env.driver Driver.with_log Driver.dut] in *;
    fold w1 in Hlow, E; try fold w1 in Hhigh; rewrite E.
  - left. exists n. repeat (split; [assumption|]).
    cbn [Env.publish Env.item_done Env.scoreboard Env.driver
         Driver.drv_logger Driver.with_log fst snd].
    split; [reflexivity|].
    unfold log. rewrite !count_level_snoc. cbn. lia.
  - right. split; [exact Hlow|].
    cbn [Env.publish Env.item_done Env.scoreboard Env.driver
         Driver.drv_logger Driver.with_log fst snd].
    split; [reflexivity|].
    unfold log. rewrite !count_level_snoc. cbn. lia.
Qed.

(** X11. For an item that comes in with [outputValid] false, as every
    item of the sequences does, the scoreboard counts a pass exactly when
    the design raised result-valid at some sample below the bound of the
    wait loop and the output read at the first such sample is the gcd of
    the operands; in every other case (timeout, or a wrong output) it
    counts a failure. *)
Theorem pass_needs_a_timely_and_correct_answer :
  forall (e : Env.GCDEnv W) (txn : GCDTransaction),
    outputValid txn = false ->
    let w1 := Driver.load_and_drain (Driver.dut (Env.driver e)) txn in
    let answered :=
      exists n : nat,
        (n < 1000)%nat
        /\ (forall j, (j < n)%nat -> read_outputValid (edges j w1) = 0)
        /\ read_outputValid (edges n w1) <> 0
        /\ read_outputGCD (edges n w1) = Z.gcd (value1 txn) (value2 txn) in
    let sb := Env.scoreboard e in
    let sb' := Env.scoreboard (Env.process_item e txn) in
    (answered ->
     Scoreboard.passed sb' = Scoreboard.passed sb + 1
     /\ Scoreboard.failed sb' = Scoreboard.failed sb)
    /\ (~ answered ->
        Scoreboard.failed sb' = Scoreboard.failed sb + 1
        /\ Scoreboard.passed sb' = Scoreboard.passed sb).
Proof.
  intros e txn Hfresh w1 answered sb sb'. subst sb sb' answered w1.
  destruct (process_item_outcomes e txn)
    as [(n & Hn & Hlow & Hhigh & -> & _)|(Hlow & -> & _)].
  - split.
    + intros (n' & Hn' & Hlow' & Hhigh' & Hg).
      assert (n' = n).
      { destruct (Nat.lt_trichotomy n' n) as [Hlt|[Heq|Hgt]]; [|exact Heq|].
        - exfalso. apply Hhigh', Hlow, Hlt.
        - exfalso. apply Hhigh, Hlow', Hgt. }
      subst n'. apply check_transaction_pass; [exact Hg|reflexivity].
    + intro Hno. apply check_transaction_fail. cbn. intros [Hg _].
      apply Hno. exists n. repeat (split; [assumption|]). exact Hg.
  - split.
    + intros (n' & Hn' & _ & Hhigh' & _). exfalso. apply Hhigh', Hlow, Hn'.
    + intros _. apply check_transaction_fail. rewrite Hfresh.
      intros [_ Hv]. discriminate.
Qed.

Lemma process_item_timeouts_fail (e : Env.GCDEnv W) (txn : GCDTransaction) :
  outputValid txn = false ->
  Z.of_nat (count_level ERROR
              (Driver.drv_logger (Env.driver (Env.process_item e txn))))
  - Z.of_nat (count_level ERROR (Driver.drv_logger (Env.driver e)))
  <= Scoreboard.failed (Env.scoreboard (Env.process_item e txn))
     - Scoreboard.failed (Env.scoreboard e).
Proof.
  intro Hfresh.
  destruct (process_item_outcomes e txn)
    as [(n & _ & _ & _ & -> & ->)|(_ & -> & ->)].
  - destruct (check_transaction_monotone
                (Env.scoreboard e)
                (set_outputValid true
                   (set_outputGCD
                      (read_outputGCD
                         (edges n
                            (Driver.load_and_drain
                               (Driver.dut (Env.driver e)) txn))) txn))).
    unfold Scoreboard.write. lia.
  - destruct (check_transaction_fail (Env.scoreboard e) txn) as [Hf _].
    + rewrite Hfresh. intros [_ Hv]. discriminate.
    + unfold Scoreboard.write. lia.
Qed.

(** X12. No timeout goes unnoticed: in a run over items that come in
    with [outputValid] false, every timeout the driver logs is also a
    failure on the scoreboard, so [failed] is at least the number of
    timeout errors in the driver's log. *)
Theorem every_timeout_is_a_scoreboard_failure :
  forall (w : W) (items : list GCDTransaction),
    Forall (fun t => outputValid t = false) items ->
    let e := Env.run_phase (Env.build w) items in
    Z.of_nat (count_level ERROR (Driver.drv_logger (Env.driver e)))
    <= Scoreboard.failed (Env.scoreboard e).
Proof.
  intros w items Hfresh e. subst e. unfold Env.run_phase.
  assert (Hgen : forall e0 : Env.GCDEnv W,
             Z.of_nat (count_level ERROR
                         (Driver.drv_logger
                            (Env.driver (fold_left Env.process_item items e0))))
             - Z.of_nat (count_level ERROR (Driver.drv_logger (Env.driver e0)))
             <= Scoreboard.failed
                  (Env.scoreboard (fold_left Env.process_item items e0))
                - Scoreboard.failed (Env.scoreboard e0)).
  { induction Hfresh as [|t items Ht _ IH]; intro e0.
    - cbn. lia.
    - cbn [fold_left]. specialize (IH (Env.process_item e0 t)).
      pose proof (process_item_timeouts_fail e0 t Ht). lia. }
  specialize (Hgen (Env.reset (Env.build w))). cbn in Hgen. lia.
Qed.

End Verdicts.

Lemma pass_needs_a_timely_and_correct_answer_witness :
  Scoreboard.passed
    (Env.scoreboard
       (Env.process_item (Env.build Stubs.subgcd_start)
          (set_value2 18 (set_value1 48 (new_txn "t")))))
  = 1.
Proof.
  refine (proj1 (proj1 (pass_needs_a_timely_and_correct_answer
                          (Env.build Stubs.subgcd_start)
                          (set_value2 18 (set_value1 48 (new_txn "t")))
                          eq_refl) _)).
  exists 5%nat. split; [lia|]. split; [|split].
  - intros j Hj. apply Z.eqb_eq.
    apply (forallb_seq_lt
             (fun j =>
                read_outputValid
                  (edges j
                     (Driver.load_and_drain Stubs.subgcd_start
                        (set_value2 18 (set_value1 48 (new_txn "t"))))) =? 0)
             5); [vm_compute; reflexivity|exact Hj].
  - vm_compute. discriminate.
  - vm_compute. reflexivity.
Defined.

Lemma every_timeout_is_a_scoreboard_failure_witness :
  Z.of_nat
    (count_level ERROR
       (Driver.drv_logger
          (Env.driver
             (Env.run_phase (Env.build (Stubs.latency_start 1000 6))
                            five_items))))
  <= Scoreboard.failed
       (Env.scoreboard
          (Env.run_phase (Env.build (Stubs.latency_start 1000 6))
                         five_items)).
Proof.
  apply (every_timeout_is_a_scoreboard_failure
           (Stubs.latency_start 1000 6) five_items).
  repeat constructor.
Defined.

(** ** Fan-out *)

Section FanOut.
Context {W : Type} `{DutHandle W}.

(** X13. The driver's analysis port reaches both subscribers with every
    transaction: after a run over [items] the scoreboard and the
    coverage collector have each been written exactly the published
    transactions, in publish order, one per item and with the item's
    operands, so the coverage total, [passed + failed] and the number of
    [item_done] calls all equal the number of items. *)
Theorem both_subscribers_receive_every_transaction :
  forall (w : W) (items : list GCDTransaction),
    let e := Env.run_phase (Env.build w) items in
    Env.scoreboard e = Scoreboard.receive_all Scoreboard.init (Env.ap e)
    /\ Env.coverage e = fold_left Coverage.write (Env.ap e) Coverage.init
    /\ Forall2 same_operands items (Env.ap e)
    /\ Coverage.total_transactions (Env.coverage e)
       = Z.of_nat (List.length items)
    /\ Scoreboard.passed (Env.scoreboard e)
       + Scoreboard.failed (Env.scoreboard e)
       = Coverage.total_transactions (Env.coverage e)
    /\ Env.items_done e = Coverage.total_transactions (Env.coverage e).
Proof.
  intros w items e.
  destruct (run_phase_fields w items) as (Hops & Hsb & Hcov & Hdone).
  fold e in Hops, Hsb, Hcov, Hdone.
  assert (Hlen : List.length (Env.ap e) = List.length items)
    by (symmetry; eapply Forall2_length; exact Hops).
  assert (Htot : Coverage.total_transactions (Env.coverage e)
                 = Z.of_nat (List.length items)).
  { rewrite Hcov. clear Hcov Hsb.
    assert (Hgen : forall l c,
               Coverage.total_transactions (fold_left Coverage.write l c)
               = Coverage.total_transactions c + Z.of_nat (List.length l)).
    { induction l as [|t l IH]; intro c; cbn [fold_left List.length].
      - lia.
      - rewrite IH. destruct (write_fields c t) as (-> & _). lia. }
    rewrite Hgen, Hlen. reflexivity. }
  split; [exact Hsb|]. split; [exact Hcov|]. split; [exact Hops|].
  split; [exact Htot|]. rewrite Htot, Hdone. split; [|reflexivity].
  rewrite Hsb, receive_all_total, Hlen. reflexivity.
Qed.

Lemma zero_bin_stays (out : list GCDTransaction) :
  Forall nonzero_operands out ->
  forall c,
    Coverage.zero_cases (fold_left Coverage.write out c)
    = Coverage.zero_cases c.
Proof.
  induction 1 as [|t out [H1 H2] _ IH]; intro c; [reflexivity|].
  cbn [fold_left]. rewrite IH.
  destruct (write_fields c t) as (_ & -> & _).
  apply Z.eqb_neq in H1, H2. rewrite H1, H2. reflexivity.
Qed.

Lemma same_operands_nonzero (items out : list GCDTransaction) :
  Forall2 same_operands items out ->
  Forall nonzero_operands items -> Forall nonzero_operands out.
Proof.
  induction 1 as [|t r items out [E1 E2] _ IH]; intro Hnz; [constructor|].
  inversion Hnz as [|? ? [N1 N2] Hrest]; subst.
  constructor; [|apply IH, Hrest].
  unfold nonzero_operands. rewrite E1, E2. split; assumption.
Qed.

Lemma run_phase_zero_bin (w : W) (items : list GCDTransaction) :
  Forall nonzero_operands items ->
  Coverage.zero_cases (Env.coverage (Env.run_phase (Env.build w) items)) = 0.
Proof.
  intro Hnz.
  destruct (run_phase_fields w items) as (Hops & _ & Hcov & _).
  rewrite Hcov, zero_bin_stays; [reflexivity|].
  exact (same_operands_nonzero _ _ Hops Hnz).
Qed.

End FanOut.

Section ZeroBin.
Context {W : Type} `{DutHandle W} {G : Type} `{RandomSourceOk G}.

(** X14. The zero-operand bin is never hit by the bench's own stimulus.
    A run over items without a 0 operand leaves [zero_cases] at 0
    whatever the design does, and the directed, corner-case, random and
    back-to-back sequences only produce such items. *)
Theorem no_sequence_reaches_the_zero_bin :
  (forall (w : W) (items : list GCDTransaction),
      Forall nonzero_operands items ->
      Coverage.zero_cases (Env.coverage (Env.run_phase (Env.build w) items))
      = 0)
  /\ (forall w : W,
         Coverage.zero_cases
           (Env.coverage
              (Env.run_phase (Env.build w) Sequences.DirectedGCDSequence_body))
         = 0
         /\ Coverage.zero_cases
              (Env.coverage
                 (Env.run_phase (Env.build w)
                                Sequences.CornerCaseSequence_body))
            = 0)
  /\ (forall (w : W) (num_txns : Z) (g : G),
         Coverage.zero_cases
           (Env.coverage
              (Env.run_phase (Env.build w)
                 (fst (Sequences.RandomGCDSequence_body num_txns g))))
         = 0
         /\ Coverage.zero_cases
              (Env.coverage
                 (Env.run_phase (Env.build w)
                    (fst (Sequences.BackToBackSequence_body num_txns g))))
            = 0).
Proof.
  split; [intros w items; apply run_phase_zero_bin|]. split.
  - intro w. split; apply run_phase_zero_bin; repeat constructor; discriminate.
  - intros w n g. split; apply run_phase_zero_bin.
    + apply random_items_nonzero.
    + apply b2b_items_nonzero.
Qed.

End ZeroBin.

Lemma no_sequence_reaches_the_zero_bin_witness :
  Coverage.zero_cases
    (Env.coverage
       (Env.run_phase (Env.build Stubs.subgcd_start)
          (fst (Sequences.BackToBackSequence_body 6 Stubs.replay_start))))
  = 0.
Proof.
  exact (proj2 (proj2 (proj2 (@no_sequence_reaches_the_zero_bin
                                Stubs.subgcd _ Stubs.replay _
                                replay_source_ok))
                      Stubs.subgcd_start 6 Stubs.replay_start)).
Defined.

(** ** Monitor, further *)

Section MonitorMore.
Context {W : Type} `{DutHandle W}.



End MonitorMore.

(** ** Sequences, further *)

Section SequencesMore.
Context {G : Type} `{RandomSourceOk G}.

Lemma randomize_keeps (txn : GCDTransaction) (g : G) :
  name (fst (Sequences.randomize txn g)) = name txn
  /\ outputGCD (fst (Sequences.randomize txn g)) = outputGCD txn
  /\ outputValid (fst (Sequences.randomize txn g)) = outputValid txn.
Proof.
  unfold Sequences.randomize.
  destruct (random g) as [r1 g1].
  destruct (Qltb r1 float_0_7).
  - destruct (randint 1 10000 g1) as [a ga].
    destruct (randint 1 10000 ga) as [b gb]. repeat split.
  - destruct (random g1) as [r2 g2]. destruct (Qltb r2 float_0_8).
    + destruct (randint 1 1000 g2) as [a ga].
      destruct (randint 1 1000 ga) as [b gb]. repeat split.
    + destruct (randint 1 20000 g2) as [base gb].
      destruct (randint 1 3 gb) as [m1 g3].
      destruct (randint 1 3 g3) as [m2 g4]. repeat split.
Qed.

Lemma randomize_fits (txn : GCDTransaction) (g : G) :
  fits_16_bits (fst (Sequences.randomize txn g)).
Proof.
  destruct (randomize_tiers txn g) as ((T1 & T2 & T3) & _).
  cbv zeta in T1, T2, T3. unfold fits_16_bits.
  destruct (Qlt_le_dec (fst (random g)) float_0_7) as [L1|L1].
  - destruct (T1 L1) as (_ & _ & ? & ?). lia.
  - destruct (Qlt_le_dec (fst (random (snd (random g)))) float_0_8)
      as [L2|L2].
    + destruct (T2 L1 L2) as (_ & _ & ? & ?). lia.
    + destruct (T3 L1 L2) as (Hb & Hm1 & Hm2 & -> & ->). nia.
Qed.

(** What the random sequence makes of index [i]. *)
Lemma random_items_each (idx : list nat) :
  forall g : G,
    Forall2 (fun i t =>
               name t = Sequences.item_name "random_txn_" i
               /\ loadingValues t = true
               /\ fits_16_bits t /\ fresh_outputs t)
            idx (fst (Sequences.random_items idx g)).
Proof.
  induction idx as [|i idx IH]; intro g; cbn [Sequences.random_items].
  - constructor.
  - pose proof (randomize_keeps
                  (new_txn (Sequences.item_name "random_txn_" i)) g)
      as (Hn & Hg & Hv).
    pose proof (randomize_fits
                  (new_txn (Sequences.item_name "random_txn_" i)) g) as Hf.
    pose proof (proj2 (randomize_tiers
                         (new_txn (Sequences.item_name "random_txn_" i)) g))
      as Hl.
    destruct (Sequences.randomize _ g) as [t g1]. cbn [fst] in *.
    specialize (IH g1). destruct (Sequences.random_items idx g1) as [ts g2].
    cbn [fst] in *. constructor; [|exact IH].
    split; [exact Hn|]. split; [exact Hl|]. split; [exact Hf|].
    split; [exact Hg|exact Hv].
Qed.

(** What the back-to-back sequence makes of index [i]: a quick item
    when [i] is a multiple of 3, a randomized one otherwise. *)
Lemma b2b_items_each (idx : list nat) :
  forall g : G,
    Forall2 (fun i t =>
               name t = Sequences.item_name "b2b_txn_" i
               /\ loadingValues t = negb (Z.of_nat i mod 3 =? 0)
               /\ (Z.of_nat i mod 3 = 0 ->
                   1 <= value1 t <= 100 /\ 1 <= value2 t <= 100)
               /\ fits_16_bits t /\ fresh_outputs t)
            idx (fst (Sequences.b2b_items idx g)).
Proof.
  induction idx as [|i idx IH]; intro g; cbn [Sequences.b2b_items].
  - constructor.
  - destruct (Z.of_nat i mod 3 =? 0) eqn:E3.
    + pose proof (randint_range 1 100 g ltac:(lia)) as Ha.
      destruct (randint 1 100 g) as [a ga]. cbn [fst] in Ha.
      pose proof (randint_range 1 100 ga ltac:(lia)) as Hb.
      destruct (randint 1 100 ga) as [b gb]. cbn [fst] in Hb.
      specialize (IH gb). destruct (Sequences.b2b_items idx gb) as [ts g2].
      cbn [fst] in *. constructor; [|exact IH]. rewrite E3.
      unfold fits_16_bits, fresh_outputs. cbn. repeat split; lia.
    + pose proof (randomize_keeps
                    (new_txn (Sequences.item_name "b2b_txn_" i)) g)
        as (Hn & Hg & Hv).
      pose proof (randomize_fits
                    (new_txn (Sequences.item_name "b2b_txn_" i)) g) as Hf.
      pose proof (proj2 (randomize_tiers
                           (new_txn (Sequences.item_name "b2b_txn_" i)) g))
        as Hl.
      destruct (Sequences.randomize _ g) as [t g1]. cbn [fst] in *.
      specialize (IH g1). destruct (Sequences.b2b_items idx g1) as [ts g2].
      cbn [fst] in *. constructor; [|exact IH]. rewrite E3.
      apply Z.eqb_neq in E3.
      split; [exact Hn|]. split; [exact Hl|].
      split; [intro; contradiction|]. split; [exact Hf|].
      split; [exact Hg|exact Hv].
Qed.

Lemma Forall2_right {A B} (P : B -> Prop) (R : A -> B -> Prop)
      (l : list A) (l' : list B) :
  (forall a b, R a b -> P b) -> Forall2 R l l' -> Forall P l'.
Proof.
  intros HR HF. induction HF; constructor; eauto.
Qed.

(** X16. The two generated sequences submit exactly [num_txns] items
    (none when [num_txns] is 0 or negative), item [i] carrying the name
    with index [i], in order. *)
Theorem generated_sequences_have_num_txns_items :
  forall (num_txns : Z) (g : G),
    let n := Z.to_nat num_txns in
    List.length (fst (Sequences.RandomGCDSequence_body num_txns g)) = n
    /\ map name (fst (Sequences.RandomGCDSequence_body num_txns g))
       = map (Sequences.item_name "random_txn_") (seq 0 n)
    /\ List.length (fst (Sequences.BackToBackSequence_body num_txns g)) = n
    /\ map name (fst (Sequences.BackToBackSequence_body num_txns g))
       = map (Sequences.item_name "b2b_txn_") (seq 0 n)
    /\ (num_txns <= 0 ->
        fst (Sequences.RandomGCDSequence_body num_txns g) = []
        /\ fst (Sequences.BackToBackSequence_body num_txns g) = []).
Proof.
  intros num_txns g n. subst n.
  unfold Sequences.RandomGCDSequence_body, Sequences.BackToBackSequence_body.
  pose proof (random_items_each (seq 0 (Z.to_nat num_txns)) g) as Hr.
  pose proof (b2b_items_each (seq 0 (Z.to_nat num_txns)) g) as Hb.
  assert (Hnames : forall (P : nat -> GCDTransaction -> Prop) pre idx l,
             (forall i t, P i t -> name t = Sequences.item_name pre i) ->
             Forall2 P idx l -> map name l = map (Sequences.item_name pre) idx).
  { intros P pre idx l HP HF. induction HF as [|i t idx l Hit _ IH];
      [reflexivity|]. cbn. now rewrite IH, (HP i t Hit). }
  split; [rewrite <- (Forall2_length Hr); apply length_seq|].
  split; [apply (Hnames _ _ _ _ (fun i t Hit => proj1 Hit) Hr)|].
  split; [rewrite <- (Forall2_length Hb); apply length_seq|].
  split; [apply (Hnames _ _ _ _ (fun i t Hit => proj1 Hit) Hb)|].
  intro Hle. replace (Z.to_nat num_txns) with 0%nat by lia.
  split; reflexivity.
Qed.

(** X17. Under every policy the operands of every item lie in
    1..65535, so they fit the 16-bit input fields, and the item starts
    with the outputs of a new transaction ([outputGCD] 0, [outputValid]
    false). *)
Theorem every_item_fits_the_fields_and_starts_fresh :
  Forall (fun t => fits_16_bits t /\ fresh_outputs t)
         Sequences.DirectedGCDSequence_body
  /\ Forall (fun t => fits_16_bits t /\ fresh_outputs t)
            Sequences.CornerCaseSequence_body
  /\ (forall (num_txns : Z) (g : G),
         Forall (fun t => fits_16_bits t /\ fresh_outputs t)
                (fst (Sequences.RandomGCDSequence_body num_txns g))
         /\ Forall (fun t => fits_16_bits t /\ fresh_outputs t)
                   (fst (Sequences.BackToBackSequence_body num_txns g))).
Proof.
  split; [|split].
  - repeat constructor; cbn; lia.
  - repeat constructor; cbn; lia.
  - intros n g. split.
    + eapply Forall2_right; [|apply random_items_each]. cbn. tauto.
    + eapply Forall2_right; [|apply b2b_items_each]. cbn. tauto.
Qed.

(** X18. The directed, corner-case and random sequences set
    [loadingValues] on every item.  The back-to-back sequence does not:
    its quick items, those whose index is a multiple of 3, keep the
    flag false (their operands lie in 1..100), and only the randomized
    ones in between have it true. *)
Theorem quick_items_leave_the_load_flag_unset :
  Forall (fun t => loadingValues t = true) Sequences.DirectedGCDSequence_body
  /\ Forall (fun t => loadingValues t = true)
            Sequences.CornerCaseSequence_body
  /\ (forall (num_txns : Z) (g : G),
         Forall (fun t => loadingValues t = true)
                (fst (Sequences.RandomGCDSequence_body num_txns g)))
  /\ (forall (num_txns : Z) (g : G),
         Forall2 (fun i t =>
                    (Z.of_nat i mod 3 = 0 ->
                     loadingValues t = false
                     /\ 1 <= value1 t <= 100 /\ 1 <= value2 t <= 100)
                    /\ (Z.of_nat i mod 3 <> 0 -> loadingValues t = true))
                 (seq 0 (Z.to_nat num_txns))
                 (fst (Sequences.BackToBackSequence_body num_txns g))).
Proof.
  split; [repeat constructor|]. split; [repeat constructor|]. split.
  - intros n g. eapply Forall2_right; [|apply random_items_each]. cbn. tauto.
  - intros n g.
    eapply Forall2_impl; [|apply b2b_items_each].
    intros i t (_ & Hl & Hq & _). split.
    + intro E. rewrite Hl. apply Z.eqb_eq in E as E'. rewrite E'.
      split; [reflexivity|]. apply Hq, E.
    + intro E. rewrite Hl. apply Z.eqb_neq in E. now rewrite E.
Qed.

End SequencesMore.

Lemma generated_sequences_have_num_txns_items_witness :
  List.length
    (fst (Sequences.RandomGCDSequence_body 20 Stubs.replay_start)) = 20%nat
  /\ fst (Sequences.BackToBackSequence_body (-3) Stubs.replay_start) = [].
Proof.
  destruct (@generated_sequences_have_num_txns_items
              Stubs.replay _ replay_source_ok 20 Stubs.replay_start)
    as (Hlen & _).
  destruct (@generated_sequences_have_num_txns_items
              Stubs.replay _ replay_source_ok (-3) Stubs.replay_start)
    as (_ & _ & _ & _ & Hneg).
  split; [exact Hlen|]. apply Hneg. lia.
Defined.

Lemma every_item_fits_the_fields_and_starts_fresh_witness :
  Forall (fun t => fits_16_bits t /\ fresh_outputs t)
         (fst (Sequences.BackToBackSequence_body 6 Stubs.replay_start)).
Proof.
  exact (proj2 (proj2 (proj2 (@every_item_fits_the_fields_and_starts_fresh
                                Stubs.replay _ replay_source_ok))
                      6 Stubs.replay_start)).
Defined.

Lemma quick_items_leave_the_load_flag_unset_witness :
  map loadingValues
      (fst (Sequences.BackToBackSequence_body 4 Stubs.replay_start))
  = [false; true; true; false]
  /\ Forall (fun t => loadingValues t = true)
            (fst (Sequences.RandomGCDSequence_body 4 Stubs.replay_start)).
Proof.
  split; [vm_compute; reflexivity|].
  exact (proj1 (proj2 (proj2 (@quick_items_leave_the_load_flag_unset
                                Stubs.replay _ replay_source_ok)))
               4 Stubs.replay_start).
Defined.

(** ** The tests *)

Section TestsMore.
Context {W : Type} `{DutHandle W} {G : Type} `{RandomSourceOk G}.



End TestsMore.

